(** * Surround360 pole removal: [combineBottomImagesWithPoleRemoval]

    A shallow embedding of
    [surround360_render/source/render/PoleRemoval.cpp] and the properties
    its specification states about it.

    Definitions come first:
    - [F32]: the C++ [float] (IEEE binary32) on top of [SpecFloat];
    - [cv::Mat] as a row-major buffer, the two pixel loops of the source
      (warp map, alpha compositing) and the image helpers it calls;
    - the function itself, written in a small exception and state monad
      whose state is the file system and the log of the calls made;
    - a small concrete rig on which the function runs by computation.
    Lemmas follow: the loop invariants, the symbolic execution of the
    monad, and the properties of the specification, each with an instance on
    the concrete rig. *)

From Stdlib Require Import ZArith Floats.SpecFloat.
From stdpp Require Import gmap strings list.

Open Scope Z_scope.

(** ** The C++ [float] *)

Module F32.

Definition prec : Z := 24.
Definition emax : Z := 128.

Definition float : Type := spec_float.

(** [static_cast<float>(n)] for an integer [n]: round to nearest even. *)
Definition of_Z (n : Z) : float := binary_normalize prec emax n 0 false.

Definition add : float -> float -> float := SFadd prec emax.
Definition sub : float -> float -> float := SFsub prec emax.
Definition mul : float -> float -> float := SFmul prec emax.
Definition div : float -> float -> float := SFdiv prec emax.
Definition ltb : float -> float -> bool := SFltb.

Definition zero : float := of_Z 0.
Definition one : float := of_Z 1.

(** Conversion of a [float] to an integer type discards the fractional
    part (truncation toward zero). *)
Definition trunc (f : float) : Z :=
  match f with
  | S754_finite s m e =>
      let a := match e with
               | Z0 => Zpos m
               | Zpos p => Zpos m * 2 ^ Zpos p
               | Zneg p => Zpos m / 2 ^ Zpos p
               end in
      if s then - a else a
  | _ => 0
  end.

(** [float] to [unsigned char]: the truncated value when it fits in
    [0, 255]. Outside that range the conversion is undefined in C++; the
    model keeps the low eight bits there. *)
Definition to_uchar (f : float) : Z := trunc f mod 256.

End F32.

(** ** Pixels and matrices *)

(** [cv::Vec3b], [cv::Vec4b]: channels in B, G, R (, A) order. *)
Record Vec3b := mkVec3b { u0 : Z; u1 : Z; u2 : Z }.
Record Vec4b := mkVec4b { v0 : Z; v1 : Z; v2 : Z; v3 : Z }.

(** [cv::Point2f]. *)
Record Point2f := mkPoint2f { ptx : F32.float; pty : F32.float }.

Definition Point2f_add (p q : Point2f) : Point2f :=
  mkPoint2f (F32.add (ptx p) (ptx q)) (F32.add (pty p) (pty q)).

(** [cv::Mat]: [rows] x [cols] elements in one row-major buffer. *)
Record Mat (A : Type) := mkMat { rows : nat; cols : nat; data : list A }.
Arguments mkMat {A} _ _ _.
Arguments rows {A} _.
Arguments cols {A} _.
Arguments data {A} _.

(** [Mat()] *)
Definition Mat_empty {A} : Mat A := mkMat 0 0 [].

(** The buffer holds exactly [rows * cols] elements. *)
Definition Mat_wf {A} (m : Mat A) : Prop :=
  length (data m) = (rows m * cols m)%nat.

(** [m.size()] is [Size(cols, rows)]. *)
Definition Mat_size {A} (m : Mat A) : nat * nat := (cols m, rows m).

Definition Size_eqb (a b : nat * nat) : bool :=
  Nat.eqb (fst a) (fst b) && Nat.eqb (snd a) (snd b).

(** [m.at<T>(y, x)]: element [y * cols + x] of the buffer. The source does
    no bounds check; [None] stands for an access outside the buffer. *)
Definition Mat_at {A} (m : Mat A) (y x : nat) : option A :=
  data m !! (y * cols m + x)%nat.

(** [m.at<T>(y, x) = v] *)
Definition Mat_set {A} (m : Mat A) (y x : nat) (v : A) : Mat A :=
  mkMat (rows m) (cols m) (<[(y * cols m + x)%nat := v]> (data m)).

(** [Mat(size, type)]: a fresh buffer; [fill] stands for its unspecified
    initial content. *)
Definition Mat_alloc {A} (sz : nat * nat) (fill : A) : Mat A :=
  mkMat (snd sz) (fst sz) (replicate (snd sz * fst sz) fill).

(** ** Loops *)

(** [for (int i = 0; i < n; ++i) body(i)] on a state [S]. *)
Definition forRange {S} (n : nat) (body : nat -> S -> S) (s : S) : S :=
  foldl (fun acc i => body i acc) s (seq 0 n).

(** [for (y < m.rows) for (x < m.cols) body(y, x)], the bounds being read
    from the matrix that the body updates in place. *)
Definition forEachPixel {A} (body : nat -> nat -> Mat A -> Mat A) (m : Mat A)
  : Mat A :=
  forRange (rows m) (fun y acc => forRange (cols acc) (fun x => body y x) acc) m.

(** A body that only rewrites cell [(y, x)] from its current content. *)
Definition cellUpdate {A} (f : nat -> nat -> A -> A) (y x : nat) (m : Mat A)
  : Mat A :=
  match Mat_at m y x with
  | Some p => Mat_set m y x (f y x p)
  | None => m
  end.

(** ** The warp map (PoleRemoval.cpp, lines 121-126) *)

(** [Point2f(x, y)] from two [int]s. *)
Definition Point2f_of_ints (x y : nat) : Point2f :=
  mkPoint2f (F32.of_Z (Z.of_nat x)) (F32.of_Z (Z.of_nat y)).

Definition Point2f_zero : Point2f := mkPoint2f F32.zero F32.zero.

Definition warpAt (flow : Mat Point2f) (y x : nat) (warpMat : Mat Point2f)
  : Mat Point2f :=
  match Mat_at flow y x with
  | Some d => Mat_set warpMat y x (Point2f_add (Point2f_of_ints x y) d)
  | None => warpMat
  end.

Definition buildWarpMat (size : nat * nat) (flow : Mat Point2f) : Mat Point2f :=
  let warpMat := Mat_alloc size Point2f_zero in
  forEachPixel (warpAt flow) warpMat.

(** ** The compositing loop (PoleRemoval.cpp, lines 149-172) *)

Definition f255 : F32.float := F32.of_Z 255.

Definition blendAt (adjustedBottomImage2 : Mat Vec4b) (y x : nat)
    (bottomImage : Mat Vec4b) : Mat Vec4b :=
  match Mat_at bottomImage y x, Mat_at adjustedBottomImage2 y x with
  | Some p, Some q =>
      let alpha := F32.div (F32.of_Z (v3 p)) f255 in
      let alpha2 := F32.div (F32.of_Z (v3 q)) f255 in
      if F32.ltb alpha F32.one && F32.ltb F32.zero alpha2 then
        let a1 := alpha in
        let a2 := F32.sub F32.one alpha in
        let r1 := F32.of_Z (v2 p) in
        let g1 := F32.of_Z (v1 p) in
        let b1 := F32.of_Z (v0 p) in
        let r2 := F32.of_Z (v2 q) in
        let g2 := F32.of_Z (v1 q) in
        let b2 := F32.of_Z (v0 q) in
        Mat_set bottomImage y x
          (mkVec4b
             (F32.to_uchar (F32.add (F32.mul a1 b1) (F32.mul a2 b2)))
             (F32.to_uchar (F32.add (F32.mul a1 g1) (F32.mul a2 g2)))
             (F32.to_uchar (F32.add (F32.mul a1 r1) (F32.mul a2 r2)))
             255)
      else bottomImage
  | _, _ => bottomImage
  end.

Definition blendLoop (bottomImage adjustedBottomImage2 : Mat Vec4b) : Mat Vec4b :=
  forEachPixel (blendAt adjustedBottomImage2) bottomImage.

(** ** Calibration records and pixel helpers *)

(** [CameraMetadata] (CameraMetadata.h): the fields this function reads. *)
Record CameraMetadata := mkCameraMetadata {
  cameraId : string;
  usablePixelsRadius : Z;
  flip180 : bool
}.

Definition setAlpha (p : Vec4b) (a : Z) : Vec4b :=
  mkVec4b (v0 p) (v1 p) (v2 p) a.

(** The three colour channels of a BGRA pixel. *)
Definition colorOf (p : Vec4b) : Z * Z * Z := (v0 p, v1 p, v2 p).

(** [cvtColor(src, dst, CV_BGR2BGRA)]: the added alpha channel is set to the
    maximum of the channel range. *)
Definition cvtColor_BGR2BGRA (m : Mat Vec3b) : Mat Vec4b :=
  mkMat (rows m) (cols m)
        (map (fun p => mkVec4b (u0 p) (u1 p) (u2 p) 255) (data m)).

(** The inverse direction, used when a four-channel file is loaded as a
    colour image. *)
Definition cvtColor_BGRA2BGR (m : Mat Vec4b) : Mat Vec3b :=
  mkMat (rows m) (cols m) (map (fun p => mkVec3b (v0 p) (v1 p) (v2 p)) (data m)).

(** [flip(src, dst, flipCode)]: [0] flips around the x axis, a positive code
    around the y axis, a negative code around both. *)
Definition flip {A} (m : Mat A) (flipCode : Z) : Mat A :=
  mkMat (rows m) (cols m)
    (imap (fun i p =>
             let y := (i / cols m)%nat in
             let x := (i mod cols m)%nat in
             let sy := if flipCode >? 0 then y else (rows m - 1 - y)%nat in
             let sx := if flipCode =? 0 then x else (cols m - 1 - x)%nat in
             default p (Mat_at m sy sx))
          (data m)).

(** [remap]: interpolation and border handling. *)
Inductive InterpolationFlags := CV_INTER_NN | CV_INTER_LINEAR | CV_INTER_CUBIC.
Inductive BorderTypes := BORDER_CONSTANT | BORDER_REPLICATE | BORDER_WRAP.

(** [Scalar()], the default [borderValue] of [remap]. *)
Definition Scalar_zero : Vec4b := mkVec4b 0 0 0 0.

Definition clampIndex (n : nat) (i : Z) : nat :=
  Z.to_nat (Z.max 0 (Z.min i (Z.of_nat n - 1))).

(** The source pixel that an interpolation tap at row [j], column [i] reads,
    for each border mode. *)
Definition borderFetch (border : BorderTypes) (borderValue : Vec4b)
    (src : Mat Vec4b) (j i : Z) : Vec4b :=
  if (0 <=? j) && (j <? Z.of_nat (rows src)) &&
     (0 <=? i) && (i <? Z.of_nat (cols src))
  then default borderValue (Mat_at src (Z.to_nat j) (Z.to_nat i))
  else match border with
       | BORDER_CONSTANT => borderValue
       | BORDER_REPLICATE =>
           default borderValue
             (Mat_at src (clampIndex (rows src) j) (clampIndex (cols src) i))
       | BORDER_WRAP =>
           default borderValue
             (Mat_at src (Z.to_nat (j mod Z.of_nat (rows src)))
                         (Z.to_nat (i mod Z.of_nat (cols src))))
       end.

(** ** Failures *)

Inductive failure :=
| VrCamException (what : string)
| AssertionFailure (expr : string).

Inductive Outcome (A : Type) :=
| Ok (a : A)
| Throw (e : failure).
Arguments Ok {A} _.
Arguments Throw {A} _.

(** ** The optical flow interface (OpticalFlowInterface.h) *)

Inductive DirectionHint := UNKNOWN | RIGHT | DOWN | LEFT | UP.

Class OpticalFlowInterface := {
  computeOpticalFlow :
    Mat Vec4b -> Mat Vec4b -> Mat Point2f -> Mat Vec4b -> Mat Vec4b ->
    DirectionHint -> Outcome (Mat Point2f)
}.

(** ** What the function takes from the rest of the system

    Everything [PoleRemoval.cpp] calls and does not define: the camera
    selection, the geometry tests of the alpha helpers, the flow factory,
    the interpolation kernel of [remap] and the colour model. [NDEBUG] tells
    whether [assert] is compiled out. *)
Class Externals := {
  NDEBUG : bool;
  getBottomCamModel : list CameraMetadata -> Outcome CameraMetadata;
  getBottomCamModel2 : list CameraMetadata -> Outcome CameraMetadata;
  insideUsableRadius : nat -> nat -> Z -> nat -> nat -> bool;
  marksPole : Vec3b -> bool;
  smoothAlpha : Mat Z -> Z -> nat -> Z;
  makeOpticalFlowByName : string -> Outcome OpticalFlowInterface;
  interpolate :
    InterpolationFlags -> (Z -> Z -> Vec4b) -> Point2f -> Vec4b;
  buildColorAdjustmentModel :
    Mat Vec4b -> Mat Vec4b -> list (list F32.float);
  applyColorAdjustmentModel :
    Mat Vec4b -> list (list F32.float) -> Mat Vec4b
}.

Section Helpers.
Context `{Ext : Externals}.

(** Modelled from the spec: [circleAlphaCut] (CvUtil) is not under src/.
    It zeroes alpha outside the circular usable-radius region and leaves
    everything else as it is; the region test is [insideUsableRadius]. *)
Definition circleAlphaCut (img : Mat Vec4b) (radius : Z) : Mat Vec4b :=
  mkMat (rows img) (cols img)
    (imap (fun i p =>
             if insideUsableRadius (rows img) (cols img) radius
                  (i / cols img)%nat (i mod cols img)%nat
             then p else setAlpha p 0)
          (data img)).

(** Modelled from the spec: [cutRedMaskOutOfAlphaChannel] (CvUtil) is not
    under src/. It zeroes alpha wherever the pole mask marks exclusion,
    pixel by pixel; [marksPole] reads one mask pixel. *)
Definition cutRedMaskOutOfAlphaChannel (img : Mat Vec4b) (redMask : Mat Vec3b)
  : Mat Vec4b :=
  mkMat (rows img) (cols img)
    (imap (fun i p =>
             match Mat_at redMask (i / cols img)%nat (i mod cols img)%nat with
             | Some c => if marksPole c then setAlpha p 0 else p
             | None => p
             end)
          (data img)).

Definition alphaPlane (img : Mat Vec4b) : Mat Z :=
  mkMat (rows img) (cols img) (map v3 (data img)).

(** Modelled from the spec: [featherAlphaChannel] (CvUtil) is not under
    src/. It smooths the alpha channel across a band of [featherSize]
    pixels; [smoothAlpha] gives the smoothed alpha of each buffer position.
    Colour channels are copied. *)
Definition featherAlphaChannel (img : Mat Vec4b) (featherSize : Z) : Mat Vec4b :=
  mkMat (rows img) (cols img)
    (imap (fun i p => setAlpha p (smoothAlpha (alphaPlane img) featherSize i))
          (data img)).

(** [remap(src, dst, map1, Mat(), interpolation, borderMode)] with the
    default border value: [dst] has the size of [map1], and each of its
    pixels is interpolated from [src] around the mapped coordinate. *)
Definition remap (src : Mat Vec4b) (map1 : Mat Point2f)
    (interpolation : InterpolationFlags) (borderMode : BorderTypes)
  : Mat Vec4b :=
  mkMat (rows map1) (cols map1)
    (map (interpolate interpolation (borderFetch borderMode Scalar_zero src))
         (data map1)).

End Helpers.

(** ** Files, the call log and the monad *)

Inductive File :=
| ImageFile (img : Mat Vec4b)
| FlowFile (flow : Mat Point2f).

(** Which of the two working images a step operates on: [bottomImage] or
    [bottomImage2]. *)
Inductive Which := Primary | Secondary.

(** One entry per call the function makes, in program order. *)
Inductive Event :=
| EvImread (path : string) (flags : Z)
| EvReadFlow (path : string)
| EvCvtColor (w : Which)
| EvCircleAlphaCut (w : Which) (radius : Z)
| EvCutRedMask (w : Which)
| EvFeather (w : Which) (featherSize : Z)
| EvFlip (w : Which) (flipCode : Z)
| EvMakeFlow (name : string)
| EvComputeFlow (I0 I1 : Mat Vec4b) (prevFlow : Mat Point2f)
                (prevI0 prevI1 : Mat Vec4b) (hint : DirectionHint)
| EvSaveFlow (path : string) (flow : Mat Point2f)
| EvImwrite (path : string) (img : Mat Vec4b)
| EvWarpMat
| EvRemap (interpolation : InterpolationFlags) (borderMode : BorderTypes)
| EvBuildColorModel
| EvApplyColorModel
| EvBlend.

(** The file system (with the paths that cannot be written) and the log. *)
Record World := mkWorld {
  files : gmap string File;
  unwritable : gset string;
  trace : list Event
}.

Definition M (A : Type) : Type := World -> Outcome A * World.

Definition ret {A} (a : A) : M A := fun w => (Ok a, w).

Definition throw {A} (e : failure) : M A := fun w => (Throw e, w).

Definition bind {A B} (m : M A) (k : A -> M B) : M B :=
  fun w =>
    match m w with
    | (Ok a, w') => k a w'
    | (Throw e, w') => (Throw e, w')
    end.

Notation "x <- m ;; k" := (bind m (fun x => k))
  (at level 100, m at next level, right associativity,
   format "'[v' x  <-  m ;; '/' k ']'").
Notation "m ;;; k" := (bind m (fun _ => k))
  (at level 100, right associativity, format "'[v' m ;;; '/' k ']'").

Definition lift {A} (o : Outcome A) : M A := fun w => (o, w).

Definition emit (e : Event) : M unit :=
  fun w => (Ok tt, mkWorld (files w) (unwritable w) (trace w ++ [e])).

(** A call of a pure helper: logged, then its value. *)
Definition call {A} (e : Event) (v : A) : M A := emit e ;;; ret v.

(** [cv::imread]: the decoded file, or nothing. *)
Definition imread (path : string) : M (option (Mat Vec4b)) :=
  fun w =>
    (Ok match files w !! path with
        | Some (ImageFile img) => Some img
        | _ => None
        end, w).

Definition CV_LOAD_IMAGE_COLOR : Z := 1.
Definition CV_LOAD_IMAGE_UNCHANGED : Z := -1.

(** Modelled from the spec: [imreadExceptionOnFail] (CvUtil) is not under
    src/. An unreadable image is fatal. With the colour flag the result has
    three channels. *)
Definition imreadExceptionOnFail_color (path : string) : M (Mat Vec3b) :=
  emit (EvImread path CV_LOAD_IMAGE_COLOR) ;;;
  r <- imread path ;;
  match r with
  | Some img => ret (cvtColor_BGRA2BGR img)
  | None => throw (VrCamException ("failed to load image: " +:+ path))
  end.

(** Modelled from the spec: [imreadExceptionOnFail] (CvUtil, not under
    src/) with flag [-1]: the file as it is stored, or a fatal failure. *)
Definition imreadExceptionOnFail_unchanged (path : string) : M (Mat Vec4b) :=
  emit (EvImread path CV_LOAD_IMAGE_UNCHANGED) ;;;
  r <- imread path ;;
  match r with
  | Some img => ret img
  | None => throw (VrCamException ("failed to load image: " +:+ path))
  end.

(** Modelled from the spec: [readFlowFromFile] (CvUtil) is not under src/.
    A missing or malformed flow file is fatal. *)
Definition readFlowFromFile (path : string) : M (Mat Point2f) :=
  emit (EvReadFlow path) ;;;
  fun w =>
    match files w !! path with
    | Some (FlowFile flow) => (Ok flow, w)
    | _ => (Throw (VrCamException ("failed to read flow: " +:+ path)), w)
    end.

Definition writeFile (path : string) (f : File) : M unit :=
  fun w =>
    if decide (path ∈ unwritable w)
    then (Throw (VrCamException ("failed to write: " +:+ path)), w)
    else (Ok tt, mkWorld (<[path := f]> (files w)) (unwritable w) (trace w)).

(** Modelled from the spec: [imwriteExceptionOnFail] (CvUtil) is not under
    src/. A failed write is fatal. *)
Definition imwriteExceptionOnFail (path : string) (img : Mat Vec4b) : M unit :=
  emit (EvImwrite path img) ;;; writeFile path (ImageFile img).

(** Modelled from the spec: [saveFlowToFile] (CvUtil) is not under src/.
    It stores the flow under [path]; a failed write is fatal. *)
Definition saveFlowToFile (flow : Mat Point2f) (path : string) : M unit :=
  emit (EvSaveFlow path flow) ;;; writeFile path (FlowFile flow).

(** [if (c) { body }] *)
Definition when (c : bool) (body : M unit) : M unit :=
  if c then body else ret tt.

(** ** The function (PoleRemoval.cpp, lines 32-181) *)

Section PoleRemoval.
Context `{Ext : Externals}.

(** [assert(e)]: nothing under [NDEBUG], otherwise the process aborts when
    [e] is false. *)
Definition assert (e : bool) (expr : string) : M unit :=
  if NDEBUG then ret tt
  else if e then ret tt else throw (AssertionFailure expr).

(** The output parameters [bottomCamModel] and [bottomImage] are the
    returned pair. *)
Definition combineBottomImagesWithPoleRemoval
    (imagesDir poleMaskDir prevFrameDataDir outputDataDir : string)
    (saveDebugImages saveFlowDataForNextFrame : bool)
    (flowAlgName : string) (alphaFeatherSize : Z)
    (camModelArrayWithTop : list CameraMetadata)
  : M (CameraMetadata * Mat Vec4b) :=
  bottomCamModel <- lift (getBottomCamModel camModelArrayWithTop) ;;
  bottomCamModel2 <- lift (getBottomCamModel2 camModelArrayWithTop) ;;
  let bottomImageFilename := cameraId bottomCamModel +:+ ".png" in
  let bottomImagePath := imagesDir +:+ "/" +:+ bottomImageFilename in
  let bottomImageFilename2 := cameraId bottomCamModel2 +:+ ".png" in
  let bottomImagePath2 := imagesDir +:+ "/" +:+ bottomImageFilename2 in
  bottomImage <- imreadExceptionOnFail_color bottomImagePath ;;
  bottomImage2 <- imreadExceptionOnFail_color bottomImagePath2 ;;
  let poleMaskPath :=
    poleMaskDir +:+ "/" +:+ cameraId bottomCamModel +:+ ".png" in
  let poleMaskPath2 :=
    poleMaskDir +:+ "/" +:+ cameraId bottomCamModel2 +:+ ".png" in
  bottomRedMask <- imreadExceptionOnFail_color poleMaskPath ;;
  bottomRedMask2 <- imreadExceptionOnFail_color poleMaskPath2 ;;
  if Nat.eqb (rows bottomRedMask) 0 || Nat.eqb (cols bottomRedMask) 0 ||
     Nat.eqb (rows bottomRedMask2) 0 || Nat.eqb (cols bottomRedMask2) 0
  then throw (VrCamException
                ("missing or bad pole mask:" +:+ poleMaskPath +:+ ","
                 +:+ poleMaskPath2))
  else
  (* make alpha channels from usable radius *)
  bottomImage <- call (EvCvtColor Primary) (cvtColor_BGR2BGRA bottomImage) ;;
  bottomImage2 <- call (EvCvtColor Secondary) (cvtColor_BGR2BGRA bottomImage2) ;;
  bottomImage <- call (EvCircleAlphaCut Primary (usablePixelsRadius bottomCamModel))
                   (circleAlphaCut bottomImage (usablePixelsRadius bottomCamModel)) ;;
  bottomImage2 <- call (EvCircleAlphaCut Secondary (usablePixelsRadius bottomCamModel2))
                    (circleAlphaCut bottomImage2 (usablePixelsRadius bottomCamModel2)) ;;
  (* cut out red masks from alpha channel *)
  bottomImage <- call (EvCutRedMask Primary)
                   (cutRedMaskOutOfAlphaChannel bottomImage bottomRedMask) ;;
  bottomImage2 <- call (EvCutRedMask Secondary)
                    (cutRedMaskOutOfAlphaChannel bottomImage2 bottomRedMask2) ;;
  (* feather the alpha channel *)
  bottomImage <- call (EvFeather Primary alphaFeatherSize)
                   (featherAlphaChannel bottomImage alphaFeatherSize) ;;
  bottomImage2 <- call (EvFeather Secondary alphaFeatherSize)
                    (featherAlphaChannel bottomImage2 alphaFeatherSize) ;;
  (* rotate the second bottom camera's image 180 degree *)
  bottomImage2 <- (if flip180 bottomCamModel2
                   then call (EvFlip Secondary (-1)) (flip bottomImage2 (-1))
                   else ret bottomImage2) ;;
  (* do optical flow *)
  prev <- (if negb (String.eqb prevFrameDataDir "NONE")
           then
             prevFrameBottomPoleRemovalFlow <-
               readFlowFromFile
                 (prevFrameDataDir +:+ "/flow/flow_bottom_secondary.bin") ;;
             prevBottomImage <-
               imreadExceptionOnFail_unchanged
                 (prevFrameDataDir +:+ "/flow_images/bottomImage.png") ;;
             prevBottomImage2 <-
               imreadExceptionOnFail_unchanged
                 (prevFrameDataDir +:+ "/flow_images/bottomImage2.png") ;;
             ret (prevFrameBottomPoleRemovalFlow, prevBottomImage,
                  prevBottomImage2)
           else ret (Mat_empty, Mat_empty, Mat_empty)) ;;
  let '(prevFrameBottomPoleRemovalFlow, prevBottomImage, prevBottomImage2) :=
    prev in
  emit (EvMakeFlow flowAlgName) ;;;
  flowAlg <- lift (makeOpticalFlowByName flowAlgName) ;;
  emit (EvComputeFlow bottomImage bottomImage2
          prevFrameBottomPoleRemovalFlow prevBottomImage prevBottomImage2
          DOWN) ;;;
  flow <- lift (computeOpticalFlow bottomImage bottomImage2
                  prevFrameBottomPoleRemovalFlow prevBottomImage
                  prevBottomImage2 DOWN) ;;
  when saveFlowDataForNextFrame
    (saveFlowToFile flow (outputDataDir +:+ "/flow/flow_bottom_secondary.bin") ;;;
     imwriteExceptionOnFail
       (outputDataDir +:+ "/flow_images/bottomImage.png") bottomImage ;;;
     imwriteExceptionOnFail
       (outputDataDir +:+ "/flow_images/bottomImage2.png") bottomImage2) ;;;
  assert (Size_eqb (Mat_size bottomImage) (Mat_size bottomImage2))
         "bottomImage.size() == bottomImage2.size()" ;;;
  warpMat <- call EvWarpMat (buildWarpMat (Mat_size bottomImage) flow) ;;
  warpedBottomImage2 <- call (EvRemap CV_INTER_CUBIC BORDER_CONSTANT)
                          (remap bottomImage2 warpMat CV_INTER_CUBIC
                                 BORDER_CONSTANT) ;;
  when saveDebugImages
    (imwriteExceptionOnFail (outputDataDir +:+ "/bottomImage.png") bottomImage ;;;
     imwriteExceptionOnFail (outputDataDir +:+ "/bottomImage2.png") bottomImage2 ;;;
     imwriteExceptionOnFail (outputDataDir +:+ "/bottomWarp2.png")
                            warpedBottomImage2) ;;;
  colorAdjustModel <- call EvBuildColorModel
                        (buildColorAdjustmentModel bottomImage warpedBottomImage2) ;;
  adjustedBottomImage2 <- call EvApplyColorModel
                            (applyColorAdjustmentModel warpedBottomImage2
                                                       colorAdjustModel) ;;
  bottomImage <- call EvBlend (blendLoop bottomImage adjustedBottomImage2) ;;
  (* redo the alpha channel *)
  bottomImage <- call (EvCircleAlphaCut Primary (usablePixelsRadius bottomCamModel))
                   (circleAlphaCut bottomImage (usablePixelsRadius bottomCamModel)) ;;
  bottomImage <- call (EvFeather Primary alphaFeatherSize)
                   (featherAlphaChannel bottomImage alphaFeatherSize) ;;
  when saveDebugImages
    (imwriteExceptionOnFail (outputDataDir +:+ "/_bottomCombined.png")
                            bottomImage) ;;;
  ret (bottomCamModel, bottomImage).

End PoleRemoval.

(** ** Summary of the working images and of the call log *)

Section Summary.
Context `{Ext : Externals}.

(** Lines 66-77 on one view: the image and the mask as loaded in colour,
    then alpha channel, circle cut, mask cut and feathering. *)
Definition workingImage (raw : Mat Vec4b) (radius : Z) (mask : Mat Vec4b)
    (featherSize : Z) : Mat Vec4b :=
  featherAlphaChannel
    (cutRedMaskOutOfAlphaChannel
       (circleAlphaCut (cvtColor_BGR2BGRA (cvtColor_BGRA2BGR raw)) radius)
       (cvtColor_BGRA2BGR mask))
    featherSize.

(** Lines 80-82, for a camera [cam]. *)
Definition oriented (cam : CameraMetadata) (img : Mat Vec4b) : Mat Vec4b :=
  if flip180 cam then flip img (-1) else img.

(** The working image as the specification words it: the raw image is
    rotated first when the camera is inverted, and masked afterwards. *)
Definition workingImage_spec (cam : CameraMetadata) (raw mask : Mat Vec4b)
    (featherSize : Z) : Mat Vec4b :=
  workingImage (oriented cam raw) (usablePixelsRadius cam) mask featherSize.

(** The log entries of the blocks of the function: seed output (lines
    112-117), first debug output (137-141), loading and masking (51-82),
    previous-frame input (89-98). *)
Definition seedLog (dir : string) (flow : Mat Point2f) (bi bi2 : Mat Vec4b) :=
  [EvSaveFlow (dir +:+ "/flow/flow_bottom_secondary.bin") flow;
   EvImwrite (dir +:+ "/flow_images/bottomImage.png") bi;
   EvImwrite (dir +:+ "/flow_images/bottomImage2.png") bi2].

Definition debugLog (dir : string) (bi bi2 warped : Mat Vec4b) :=
  [EvImwrite (dir +:+ "/bottomImage.png") bi;
   EvImwrite (dir +:+ "/bottomImage2.png") bi2;
   EvImwrite (dir +:+ "/bottomWarp2.png") warped].

Definition prepLog (imagesDir poleMaskDir : string)
    (cam cam2 : CameraMetadata) (n : Z) :=
  [EvImread (imagesDir +:+ "/" +:+ cameraId cam +:+ ".png") CV_LOAD_IMAGE_COLOR;
   EvImread (imagesDir +:+ "/" +:+ cameraId cam2 +:+ ".png") CV_LOAD_IMAGE_COLOR;
   EvImread (poleMaskDir +:+ "/" +:+ cameraId cam +:+ ".png") CV_LOAD_IMAGE_COLOR;
   EvImread (poleMaskDir +:+ "/" +:+ cameraId cam2 +:+ ".png") CV_LOAD_IMAGE_COLOR;
   EvCvtColor Primary; EvCvtColor Secondary;
   EvCircleAlphaCut Primary (usablePixelsRadius cam);
   EvCircleAlphaCut Secondary (usablePixelsRadius cam2);
   EvCutRedMask Primary; EvCutRedMask Secondary;
   EvFeather Primary n; EvFeather Secondary n]
  ++ (if flip180 cam2 then [EvFlip Secondary (-1)] else []).

Definition prevLog (dir : string) :=
  if negb (String.eqb dir "NONE") then
    [EvReadFlow (dir +:+ "/flow/flow_bottom_secondary.bin");
     EvImread (dir +:+ "/flow_images/bottomImage.png") CV_LOAD_IMAGE_UNCHANGED;
     EvImread (dir +:+ "/flow_images/bottomImage2.png") CV_LOAD_IMAGE_UNCHANGED]
  else [].

End Summary.

(** The pixel the compositing loop leaves at a position, from the primary
    pixel [p] and the adjusted secondary pixel [q] found there. *)
Definition blendPixel (p q : Vec4b) : Vec4b :=
  let a1 := F32.div (F32.of_Z (v3 p)) f255 in
  let alpha2 := F32.div (F32.of_Z (v3 q)) f255 in
  let mix c1 c2 :=
    F32.to_uchar (F32.add (F32.mul a1 (F32.of_Z c1))
                          (F32.mul (F32.sub F32.one a1) (F32.of_Z c2))) in
  if F32.ltb a1 F32.one && F32.ltb F32.zero alpha2
  then mkVec4b (mix (v0 p) (v0 q)) (mix (v1 p) (v1 q)) (mix (v2 p) (v2 q)) 255
  else p.

(** Every value of an 8-bit channel. *)
Definition bytes : list Z := map Z.of_nat (seq 0 256).

(** ** Classifying the entries of the call log *)

(** Writes to persistent storage. *)
Definition isWrite (e : Event) : bool :=
  match e with
  | EvSaveFlow _ _ | EvImwrite _ _ => true
  | _ => false
  end.

(** The stages that produce the combined image from the flow: warp,
    colour matching, compositing. *)
Definition isMainStage (e : Event) : bool :=
  match e with
  | EvWarpMat | EvRemap _ _ | EvBuildColorModel | EvApplyColorModel
  | EvBlend => true
  | _ => false
  end.

(** Steps that read or write pixels of a working image. *)
Definition isPixelStep (e : Event) : bool :=
  match e with
  | EvCvtColor _ | EvCircleAlphaCut _ _ | EvCutRedMask _ | EvFeather _ _
  | EvFlip _ _ | EvComputeFlow _ _ _ _ _ _ => true
  | _ => isMainStage e
  end.

Definition isComputeFlow (e : Event) : bool :=
  match e with EvComputeFlow _ _ _ _ _ _ => true | _ => false end.



Definition Which_eqb (a b : Which) : bool :=
  match a, b with
  | Primary, Primary | Secondary, Secondary => true
  | _, _ => false
  end.

Definition isFlipOf (w : Which) (e : Event) : bool :=
  match e with EvFlip w' _ => Which_eqb w w' | _ => false end.

(** The mask-building steps on one working image. *)
Definition isMaskStepOf (w : Which) (e : Event) : bool :=
  match e with
  | EvCvtColor w' | EvCircleAlphaCut w' _ | EvCutRedMask w'
  | EvFeather w' _ => Which_eqb w w'
  | _ => false
  end.

(** Some entry satisfying [P] comes strictly before one satisfying [Q]. *)
Fixpoint precedesb (P Q : Event -> bool) (t : list Event) : bool :=
  match t with
  | [] => false
  | e :: t' => (P e && existsb Q t') || precedesb P Q t'
  end.

(** What a path holds, as the two readers see it. *)
Definition storedImage (fs : gmap string File) (path : string)
  : option (Mat Vec4b) :=
  match fs !! path with
  | Some (ImageFile img) => Some img
  | _ => None
  end.


(** A pole mask that is absent, or has no rows or no columns. *)
Definition badMask (fs : gmap string File) (path : string) : Prop :=
  match storedImage fs path with
  | Some m => rows m = 0%nat \/ cols m = 0%nat
  | None => True
  end.

(** The failures the specification calls [MissingResourceError]: an image
    or mask that cannot be loaded, or an empty pole mask. *)
Definition MissingResourceError (e : failure) : Prop :=
  (exists path, e = VrCamException ("failed to load image: " +:+ path)) \/
  (exists p1 p2,
     e = VrCamException ("missing or bad pole mask:" +:+ p1 +:+ "," +:+ p2)).

(** ** Channel ranges, reads and output paths *)

(** A value of an 8-bit channel. *)
Definition isByte (z : Z) : Prop := 0 <= z <= 255.

(** A pixel whose four channels are 8-bit values, as every [Vec4b] is. *)
Definition Vec4b_bytes (p : Vec4b) : Prop :=
  isByte (v0 p) /\ isByte (v1 p) /\ isByte (v2 p) /\ isByte (v3 p).

(** Reads from persistent storage. *)
Definition isRead (e : Event) : bool :=
  match e with
  | EvImread _ _ | EvReadFlow _ => true
  | _ => false
  end.

(** No entry satisfying [Q] comes before the first entry satisfying [P]
    (and there is none at all when [P] never holds). *)
Fixpoint noneBefore (P Q : Event -> bool) (t : list Event) : bool :=
  match t with
  | [] => true
  | e :: t' => if P e then true else negb (Q e) && noneBefore P Q t'
  end.

(** The seven files the function can write (lines 114-116, 138-140, 179). *)
Definition outputPaths (outputDataDir : string) : list string :=
  [outputDataDir +:+ "/flow/flow_bottom_secondary.bin";
   outputDataDir +:+ "/flow_images/bottomImage.png";
   outputDataDir +:+ "/flow_images/bottomImage2.png";
   outputDataDir +:+ "/bottomImage.png";
   outputDataDir +:+ "/bottomImage2.png";
   outputDataDir +:+ "/bottomWarp2.png";
   outputDataDir +:+ "/_bottomCombined.png"].

(** The file system after the seed output (lines 112-117) and after the
    first debug output (lines 137-141). *)
Definition writeSeed (dir : string) (flow : Mat Point2f) (bi bi2 : Mat Vec4b)
    (fs : gmap string File) : gmap string File :=
  <[dir +:+ "/flow_images/bottomImage2.png" := ImageFile bi2]>
    (<[dir +:+ "/flow_images/bottomImage.png" := ImageFile bi]>
       (<[dir +:+ "/flow/flow_bottom_secondary.bin" := FlowFile flow]> fs)).

Definition writeDebug (dir : string) (bi bi2 warped : Mat Vec4b)
    (fs : gmap string File) : gmap string File :=
  <[dir +:+ "/bottomWarp2.png" := ImageFile warped]>
    (<[dir +:+ "/bottomImage2.png" := ImageFile bi2]>
       (<[dir +:+ "/bottomImage.png" := ImageFile bi]> fs)).

(** ** A small concrete rig

    An instance of [Externals], two cameras and a file system, on which the
    function can be run by computation. *)

Module Rig.

(** A flow algorithm that reports no motion. *)
Definition zeroFlow : OpticalFlowInterface :=
  {| computeOpticalFlow I0 I1 prevFlow prevI0 prevI1 hint :=
       Ok (Mat_alloc (Mat_size I0) Point2f_zero) |}.

Definition nth_cam (n : nat) (cams : list CameraMetadata)
  : Outcome CameraMetadata :=
  match cams !! n with
  | Some c => Ok c
  | None => Throw (VrCamException "expected bottom camera")
  end.

Definition centred (rows cols : nat) (radius : Z) (y x : nat) : bool :=
  let dx := Z.of_nat x - Z.of_nat (cols / 2) in
  let dy := Z.of_nat y - Z.of_nat (rows / 2) in
  dx * dx + dy * dy <=? radius * radius.

Definition nearest (fl : InterpolationFlags) (fetch : Z -> Z -> Vec4b)
    (p : Point2f) : Vec4b :=
  fetch (F32.trunc (pty p)) (F32.trunc (ptx p)).

Definition externals (ndebug : bool) : Externals :=
  {| NDEBUG := ndebug;
     getBottomCamModel := nth_cam 0;
     getBottomCamModel2 := nth_cam 1;
     insideUsableRadius := centred;
     marksPole c := u2 c >? 0;
     smoothAlpha plane featherSize i := default 0 (data plane !! i);
     makeOpticalFlowByName name :=
       if String.eqb name "zero" then Ok zeroFlow
       else Throw (VrCamException ("unrecognized flow algorithm: " +:+ name));
     interpolate := nearest;
     buildColorAdjustmentModel _ _ := [];
     applyColorAdjustmentModel img _ := img |}.

Definition cam0 : CameraMetadata := mkCameraMetadata "cam0" 10 true.
Definition cam1 : CameraMetadata := mkCameraMetadata "cam1" 10 true.
Definition cams : list CameraMetadata := [cam0; cam1].

Definition px (b g r a : Z) : Vec4b := mkVec4b b g r a.

(** Two 1 x 2 colour images and their pole masks: the left pixel of each
    view is on the pole (red in the mask). *)
Definition raw0 : Mat Vec4b := mkMat 1 2 [px 10 20 30 255; px 40 50 60 255].
Definition raw1 : Mat Vec4b := mkMat 1 2 [px 1 2 3 255; px 4 5 6 255].
Definition mask : Mat Vec4b := mkMat 1 2 [px 0 0 255 255; px 0 0 0 255].

Definition disk : gmap string File :=
  <["img/cam0.png" := ImageFile raw0]>
  (<["img/cam1.png" := ImageFile raw1]>
  (<["mask/cam0.png" := ImageFile mask]>
  (<["mask/cam1.png" := ImageFile mask]> ∅))).

Definition world : World := mkWorld disk ∅ [].

(** One frame with the debug and seed outputs enabled. *)
Definition frameFrom (prevFrameDataDir : string) (ndebug : bool) (w : World)
  : Outcome (CameraMetadata * Mat Vec4b) * World :=
  @combineBottomImagesWithPoleRemoval (externals ndebug)
    "img" "mask" prevFrameDataDir "out" true true "zero" 0 cams w.

(** The same with no previous frame. *)
Definition frame : bool -> World -> Outcome (CameraMetadata * Mat Vec4b) * World :=
  frameFrom "NONE".

(** The working images of the two views, the combined image and the world
    after the frame. *)
Definition working0 : Mat Vec4b := mkMat 1 2 [px 10 20 30 0; px 40 50 60 255].
Definition masked1 : Mat Vec4b := mkMat 1 2 [px 1 2 3 0; px 4 5 6 255].
Definition working1 : Mat Vec4b := mkMat 1 2 [px 4 5 6 255; px 1 2 3 0].
Definition combined : Mat Vec4b := mkMat 1 2 [px 4 5 6 255; px 40 50 60 255].
Definition final : World := Eval vm_compute in snd (frame false world).


(** A rig without the pole mask of the secondary camera. *)
Definition masklessDisk : gmap string File := delete "mask/cam1.png" disk.
Definition masklessWorld : World := mkWorld masklessDisk ∅ [].


(** The flow of the first frame. *)
Definition flow0 : Mat Point2f := mkMat 1 2 [Point2f_zero; Point2f_zero].
End Rig.

(** * Lemmas *)

(** ** Loop lemmas *)

(** Row-major indexing is injective on in-range columns. *)
Lemma row_major_inj (c y x y' x' : nat) :
  (x < c)%nat -> (x' < c)%nat ->
  (y * c + x = y' * c + x')%nat -> y = y' /\ x = x'.
Proof.
  intros Hx Hx' H.
  assert (y = y') as ->.
  { destruct (Nat.lt_trichotomy y y') as [Hlt|[Heq|Hgt]]; [|assumption|]; nia. }
  split; [reflexivity|lia].
Qed.

Section LoopLemmas.
Context {A : Type}.
Implicit Types (m : Mat A) (f : nat -> nat -> A -> A).

Lemma forRange_S {S} (n : nat) (body : nat -> S -> S) (s : S) :
  forRange (Datatypes.S n) body s = body n (forRange n body s).
Proof.
  unfold forRange. rewrite seq_S, foldl_app. reflexivity.
Qed.

Lemma cellUpdate_dims f y x m :
  rows (cellUpdate f y x m) = rows m /\
  cols (cellUpdate f y x m) = cols m /\
  length (data (cellUpdate f y x m)) = length (data m).
Proof.
  unfold cellUpdate. destruct (Mat_at m y x); simpl; auto.
  rewrite length_insert. auto.
Qed.

(** Reading a cell after one cell update. *)
Lemma cellUpdate_at f y x m y' x' :
  (x < cols m)%nat -> (x' < cols m)%nat ->
  Mat_at (cellUpdate f y x m) y' x' =
    if decide (y' = y /\ x' = x) then f y x <$> Mat_at m y' x'
    else Mat_at m y' x'.
Proof.
  intros Hx Hx'. unfold cellUpdate.
  destruct (Mat_at m y x) as [p|] eqn:E.
  - unfold Mat_at, Mat_set in *. simpl.
    destruct (decide (y' = y /\ x' = x)) as [[-> ->]|Hne].
    + rewrite E. simpl. apply list_lookup_insert_eq.
      eapply lookup_lt_Some; eauto.
    + apply list_lookup_insert_ne. intros Heq. apply Hne.
      destruct (row_major_inj (cols m) y x y' x' Hx Hx' Heq) as [? ?].
      split; congruence.
  - destruct (decide (y' = y /\ x' = x)) as [[-> ->]|Hne]; [|reflexivity].
    rewrite E. reflexivity.
Qed.

(** One row of the loop nest. *)
Lemma row_loop_spec f y m k :
  (k <= cols m)%nat ->
  let m' := forRange k (fun x => cellUpdate f y x) m in
  rows m' = rows m /\ cols m' = cols m /\
  length (data m') = length (data m) /\
  forall y' x', (x' < cols m)%nat ->
    Mat_at m' y' x' =
      if decide (y' = y /\ (x' < k)%nat) then f y x' <$> Mat_at m y' x'
      else Mat_at m y' x'.
Proof.
  induction k as [|k IH]; intros Hk; simpl.
  - repeat split; auto. intros y' x' _.
    destruct (decide _) as [[_ H]|]; [lia|reflexivity].
  - rewrite forRange_S.
    destruct IH as (Hr & Hc & Hl & Hat); [lia|].
    set (mk := forRange k (fun x => cellUpdate f y x) m) in *.
    destruct (cellUpdate_dims f y k mk) as (Hr' & Hc' & Hl').
    repeat split; try congruence.
    intros y' x' Hx'.
    rewrite cellUpdate_at by lia.
    rewrite Hat by lia.
    destruct (decide (y' = y /\ x' = k)) as [[-> ->]|Hne].
    + destruct (decide (y = y /\ (k < k)%nat)) as [[_ ?]|_]; [lia|].
      destruct (decide (y = y /\ (k < Datatypes.S k)%nat)) as [_|H];
        [reflexivity|exfalso; apply H; split; [reflexivity|lia]].
    + destruct (decide (y' = y /\ (x' < k)%nat)) as [[-> ?]|H1];
        destruct (decide (_ /\ (x' < Datatypes.S k)%nat)) as [[? ?]|H2];
        try reflexivity; exfalso.
      * apply H2. split; [reflexivity|lia].
      * apply H1. split; [assumption|]. assert (x' <> k) by tauto. lia.
Qed.

(** The first [k] rows of the loop nest. *)
Lemma rows_loop_spec f m k :
  let m' := forRange k
              (fun y acc => forRange (cols acc) (fun x => cellUpdate f y x) acc)
              m in
  rows m' = rows m /\ cols m' = cols m /\
  length (data m') = length (data m) /\
  forall y' x', (x' < cols m)%nat ->
    Mat_at m' y' x' =
      if decide (y' < k)%nat then f y' x' <$> Mat_at m y' x'
      else Mat_at m y' x'.
Proof.
  induction k as [|k IH]; simpl.
  - repeat split; auto.
  - rewrite forRange_S.
    destruct IH as (Hr & Hc & Hl & Hat).
    set (mk := forRange k _ m) in *.
    destruct (row_loop_spec f k mk (cols mk)) as (Hr' & Hc' & Hl' & Hat');
      [lia|].
    repeat split; try congruence.
    intros y' x' Hx'.
    rewrite Hat' by lia. rewrite Hat by lia. rewrite Hc.
    destruct (decide (y' = k /\ (x' < cols m)%nat)) as [[-> _]|Hne].
    + destruct (decide (k < k)%nat); [lia|].
      destruct (decide (k < Datatypes.S k)%nat); [reflexivity|lia].
    + destruct (decide (y' < k)%nat);
        destruct (decide (y' < Datatypes.S k)%nat);
        try reflexivity; lia.
Qed.

(** The whole nest rewrites every cell exactly once, from its original
    content, and keeps the dimensions. *)
Lemma forEachPixel_cellUpdate f m :
  let m' := forEachPixel (cellUpdate f) m in
  rows m' = rows m /\ cols m' = cols m /\
  length (data m') = length (data m) /\
  forall y x, (y < rows m)%nat -> (x < cols m)%nat ->
    Mat_at m' y x = f y x <$> Mat_at m y x.
Proof.
  unfold forEachPixel.
  destruct (rows_loop_spec f m (rows m)) as (Hr & Hc & Hl & Hat).
  repeat split; auto.
  intros y x Hy Hx. rewrite Hat by assumption.
  destruct (decide (y < rows m)%nat); [reflexivity|lia].
Qed.

End LoopLemmas.

(** ** Symbolic execution of the monad *)

Section StepLemmas.
Context {A B : Type}.
Implicit Types (k : A -> M B) (w : World).

Lemma bind_assoc {C} (m : M C) (h : C -> M A) k w :
  bind (bind m h) k w = bind m (fun x => bind (h x) k) w.
Proof. unfold bind. destruct (m w) as [[a|e] w1]; reflexivity. Qed.

Lemma bind_ret (a : A) k w : bind (ret a) k w = k a w.
Proof. reflexivity. Qed.

Lemma bind_throw e k w : bind (throw e) k w = (Throw e, w).
Proof. reflexivity. Qed.

Lemma bind_lift (o : Outcome A) k w :
  bind (lift o) k w =
    match o with Ok a => k a w | Throw e => (Throw e, w) end.
Proof. unfold bind, lift. destruct o; reflexivity. Qed.

Lemma bind_emit ev (k : unit -> M B) fs uw tr :
  bind (emit ev) k (mkWorld fs uw tr) = k tt (mkWorld fs uw (tr ++ [ev])).
Proof. reflexivity. Qed.

Lemma bind_call ev (a : A) k fs uw tr :
  bind (call ev a) k (mkWorld fs uw tr) = k a (mkWorld fs uw (tr ++ [ev])).
Proof. reflexivity. Qed.

Lemma bind_imread_color path (k : Mat Vec3b -> M B) fs uw tr :
  bind (imreadExceptionOnFail_color path) k (mkWorld fs uw tr) =
    let w1 := mkWorld fs uw (tr ++ [EvImread path CV_LOAD_IMAGE_COLOR]) in
    match fs !! path with
    | Some (ImageFile img) => k (cvtColor_BGRA2BGR img) w1
    | _ => (Throw (VrCamException ("failed to load image: " +:+ path)), w1)
    end.
Proof.
  unfold imreadExceptionOnFail_color, imread, bind, emit, ret, throw; simpl.
  destruct (fs !! path) as [[img|fl]|]; reflexivity.
Qed.

Lemma bind_imread_unchanged path (k : Mat Vec4b -> M B) fs uw tr :
  bind (imreadExceptionOnFail_unchanged path) k (mkWorld fs uw tr) =
    let w1 := mkWorld fs uw (tr ++ [EvImread path CV_LOAD_IMAGE_UNCHANGED]) in
    match fs !! path with
    | Some (ImageFile img) => k img w1
    | _ => (Throw (VrCamException ("failed to load image: " +:+ path)), w1)
    end.
Proof.
  unfold imreadExceptionOnFail_unchanged, imread, bind, emit, ret, throw; simpl.
  destruct (fs !! path) as [[img|fl]|]; reflexivity.
Qed.

Lemma bind_readFlow path (k : Mat Point2f -> M B) fs uw tr :
  bind (readFlowFromFile path) k (mkWorld fs uw tr) =
    let w1 := mkWorld fs uw (tr ++ [EvReadFlow path]) in
    match fs !! path with
    | Some (FlowFile flow) => k flow w1
    | _ => (Throw (VrCamException ("failed to read flow: " +:+ path)), w1)
    end.
Proof.
  unfold readFlowFromFile, bind, emit, ret; simpl.
  destruct (fs !! path) as [[img|fl]|]; reflexivity.
Qed.

Lemma bind_imwrite path img (k : unit -> M B) fs uw tr :
  bind (imwriteExceptionOnFail path img) k (mkWorld fs uw tr) =
    if decide (path ∈ uw)
    then (Throw (VrCamException ("failed to write: " +:+ path)),
          mkWorld fs uw (tr ++ [EvImwrite path img]))
    else k tt (mkWorld (<[path := ImageFile img]> fs) uw
                       (tr ++ [EvImwrite path img])).
Proof.
  unfold imwriteExceptionOnFail, writeFile, bind, emit; simpl.
  destruct (decide (path ∈ uw)); reflexivity.
Qed.

Lemma bind_saveFlow path flow (k : unit -> M B) fs uw tr :
  bind (saveFlowToFile flow path) k (mkWorld fs uw tr) =
    if decide (path ∈ uw)
    then (Throw (VrCamException ("failed to write: " +:+ path)),
          mkWorld fs uw (tr ++ [EvSaveFlow path flow]))
    else k tt (mkWorld (<[path := FlowFile flow]> fs) uw
                       (tr ++ [EvSaveFlow path flow])).
Proof.
  unfold saveFlowToFile, writeFile, bind, emit; simpl.
  destruct (decide (path ∈ uw)); reflexivity.
Qed.

End StepLemmas.

(** One step of a run [H : m w = (r, w')]: the head of [m] is executed, with
    a case split where it can fail or branches. *)
Ltac mstep H :=
  lazymatch type of H with
  | bind (bind _ _) _ _ = _ => rewrite bind_assoc in H
  | bind (ret _) _ _ = _ => rewrite bind_ret in H
  | bind (throw _) _ _ = _ => rewrite bind_throw in H
  | bind (emit _) _ _ = _ => rewrite bind_emit in H
  | bind (call _ _) _ _ = _ => rewrite bind_call in H
  | bind (lift ?o) _ _ = _ =>
      rewrite bind_lift in H; destruct o eqn:?
  | bind (imreadExceptionOnFail_color ?p) _ (mkWorld ?f _ _) = _ =>
      rewrite bind_imread_color in H; cbv zeta in H;
      destruct (f !! p) as [[?|?]|] eqn:?
  | bind (imreadExceptionOnFail_unchanged ?p) _ (mkWorld ?f _ _) = _ =>
      rewrite bind_imread_unchanged in H; cbv zeta in H;
      destruct (f !! p) as [[?|?]|] eqn:?
  | bind (readFlowFromFile ?p) _ (mkWorld ?f _ _) = _ =>
      rewrite bind_readFlow in H; cbv zeta in H;
      destruct (f !! p) as [[?|?]|] eqn:?
  | bind (imwriteExceptionOnFail ?p _) _ (mkWorld _ ?u _) = _ =>
      rewrite bind_imwrite in H; destruct (decide (p ∈ u))
  | bind (saveFlowToFile _ ?p) _ (mkWorld _ ?u _) = _ =>
      rewrite bind_saveFlow in H; destruct (decide (p ∈ u))
  | bind (when ?c _) _ _ = _ => destruct c eqn:?; unfold when in H
  | bind (assert ?c _) _ _ = _ => unfold assert in H
  | bind (if ?c then _ else _) _ _ = _ => destruct c eqn:?
  | (if ?c then _ else _) _ = _ => destruct c eqn:?
  | ret _ _ = _ => unfold ret in H
  | throw _ _ = _ => unfold throw in H
  end; cbv beta iota in H.

(** All steps of a run that returns a result. *)
Ltac mrun H := repeat (mstep H; try discriminate H).

Lemma Size_eqb_eq (a b : nat * nat) : Size_eqb a b = true -> a = b.
Proof.
  destruct a, b. unfold Size_eqb. simpl. intros H.
  apply andb_true_iff in H as [H1 H2].
  apply Nat.eqb_eq in H1, H2. congruence.
Qed.

(** ** What a call does *)

Section RunLemmas.
Context `{Ext : Externals}.

(** What a successful call has done: the inputs it read, the value it
    returns and the calls it made, in order. *)
Lemma run_ok
    imagesDir poleMaskDir prevFrameDataDir outputDataDir
    saveDebugImages saveFlowDataForNextFrame flowAlgName alphaFeatherSize
    cams fs uw cam out w' :
  combineBottomImagesWithPoleRemoval imagesDir poleMaskDir prevFrameDataDir
    outputDataDir saveDebugImages saveFlowDataForNextFrame flowAlgName
    alphaFeatherSize cams (mkWorld fs uw []) = (Ok (cam, out), w') ->
  exists cam2 raw1 raw2 mask1 mask2 pf p0 p1 alg flow,
    let bi :=
      workingImage raw1 (usablePixelsRadius cam) mask1 alphaFeatherSize in
    let bi2 :=
      oriented cam2
        (workingImage raw2 (usablePixelsRadius cam2) mask2 alphaFeatherSize) in
    let warped :=
      remap bi2 (buildWarpMat (Mat_size bi) flow)
            CV_INTER_CUBIC BORDER_CONSTANT in
    let adjusted :=
      applyColorAdjustmentModel warped
        (buildColorAdjustmentModel bi warped) in
    getBottomCamModel cams = Ok cam /\
    getBottomCamModel2 cams = Ok cam2 /\
    fs !! (imagesDir +:+ "/" +:+ cameraId cam +:+ ".png")
      = Some (ImageFile raw1) /\
    fs !! (imagesDir +:+ "/" +:+ cameraId cam2 +:+ ".png")
      = Some (ImageFile raw2) /\
    fs !! (poleMaskDir +:+ "/" +:+ cameraId cam +:+ ".png")
      = Some (ImageFile mask1) /\
    fs !! (poleMaskDir +:+ "/" +:+ cameraId cam2 +:+ ".png")
      = Some (ImageFile mask2) /\
    (if negb (String.eqb prevFrameDataDir "NONE") then
       fs !! (prevFrameDataDir +:+ "/flow/flow_bottom_secondary.bin")
         = Some (FlowFile pf) /\
       fs !! (prevFrameDataDir +:+ "/flow_images/bottomImage.png")
         = Some (ImageFile p0) /\
       fs !! (prevFrameDataDir +:+ "/flow_images/bottomImage2.png")
         = Some (ImageFile p1)
     else pf = Mat_empty /\ p0 = Mat_empty /\ p1 = Mat_empty) /\
    makeOpticalFlowByName flowAlgName = Ok alg /\
    @computeOpticalFlow alg bi bi2 pf p0 p1 DOWN = Ok flow /\
    (NDEBUG = true \/ Mat_size bi = Mat_size bi2) /\
    out = featherAlphaChannel
            (circleAlphaCut (blendLoop bi adjusted) (usablePixelsRadius cam))
            alphaFeatherSize /\
    trace w' =
      prepLog imagesDir poleMaskDir cam cam2 alphaFeatherSize
      ++ prevLog prevFrameDataDir
      ++ [EvMakeFlow flowAlgName; EvComputeFlow bi bi2 pf p0 p1 DOWN]
      ++ (if saveFlowDataForNextFrame
          then seedLog outputDataDir flow bi bi2 else [])
      ++ [EvWarpMat; EvRemap CV_INTER_CUBIC BORDER_CONSTANT]
      ++ (if saveDebugImages
          then debugLog outputDataDir bi bi2 warped else [])
      ++ [EvBuildColorModel; EvApplyColorModel; EvBlend;
          EvCircleAlphaCut Primary (usablePixelsRadius cam);
          EvFeather Primary alphaFeatherSize]
      ++ (if saveDebugImages
          then [EvImwrite (outputDataDir +:+ "/_bottomCombined.png") out]
          else []).
Proof.
  intros H. unfold combineBottomImagesWithPoleRemoval in H.
  mrun H.
  all: injection H as <- <- <-.
  all: eexists _, _, _, _, _, _, _, _, _, _; cbv zeta.
  all: unfold prepLog, prevLog, oriented, workingImage, seedLog, debugLog.
  all: do 6 (split; [first [eassumption|reflexivity]|]).
  all: repeat match goal with
              | E : ?c = true |- context [?c] => rewrite E
              | E : ?c = false |- context [?c] => rewrite E
              end.
  all: cbv iota.
  all: split; [repeat split; first [eassumption|reflexivity]|].
  all: do 2 (split; [first [eassumption|reflexivity]|]).
  all: split;
    [first [left; reflexivity | right; apply Size_eqb_eq; assumption]|].
  all: split; [reflexivity|].
  all: cbn [trace app]; reflexivity.
Qed.

End RunLemmas.

(** ** Pixel lemmas *)

Lemma forRange_ext {S} n (f g : nat -> S -> S) s :
  (forall i a, f i a = g i a) -> forRange n f s = forRange n g s.
Proof.
  intros E. induction n as [|n IH]; [reflexivity|].
  rewrite !forRange_S, IH. apply E.
Qed.

Lemma forEachPixel_ext {A} (f g : nat -> nat -> Mat A -> Mat A) m :
  (forall y x a, f y x a = g y x a) -> forEachPixel f m = forEachPixel g m.
Proof.
  intros E. unfold forEachPixel. apply forRange_ext.
  intros y a. apply forRange_ext. intros x b. apply E.
Qed.

Lemma Mat_set_same {A} (m : Mat A) y x p :
  Mat_at m y x = Some p -> Mat_set m y x p = m.
Proof.
  destruct m as [r c d]. unfold Mat_at, Mat_set. simpl. intros H.
  f_equal. apply list_insert_id. exact H.
Qed.

Lemma blendAt_cellUpdate adj y x m :
  blendAt adj y x m =
    cellUpdate (fun y x p => match Mat_at adj y x with
                             | Some q => blendPixel p q
                             | None => p
                             end) y x m.
Proof.
  unfold blendAt, cellUpdate, blendPixel.
  destruct (Mat_at m y x) as [p|] eqn:Ep; [|reflexivity].
  destruct (Mat_at adj y x) as [q|] eqn:Eq.
  - cbv zeta. destruct (_ && _); [reflexivity|].
    symmetry. apply Mat_set_same. exact Ep.
  - symmetry. apply Mat_set_same. exact Ep.
Qed.

Lemma blendLoop_at bi adj y x :
  (y < rows bi)%nat -> (x < cols bi)%nat ->
  Mat_at (blendLoop bi adj) y x =
    (fun p => match Mat_at adj y x with
              | Some q => blendPixel p q
              | None => p
              end) <$> Mat_at bi y x.
Proof.
  intros Hy Hx. unfold blendLoop.
  rewrite (forEachPixel_ext _ _ _ (blendAt_cellUpdate adj)).
  pose proof (forEachPixel_cellUpdate
                (fun y x p => match Mat_at adj y x with
                              | Some q => blendPixel p q
                              | None => p
                              end) bi) as (_ & _ & _ & H).
  apply H; assumption.
Qed.

Lemma blendLoop_dims bi adj :
  rows (blendLoop bi adj) = rows bi /\ cols (blendLoop bi adj) = cols bi.
Proof.
  unfold blendLoop.
  rewrite (forEachPixel_ext _ _ _ (blendAt_cellUpdate adj)).
  pose proof (forEachPixel_cellUpdate
                (fun y x p => match Mat_at adj y x with
                              | Some q => blendPixel p q
                              | None => p
                              end) bi) as (H1 & H2 & _).
  split; assumption.
Qed.

Lemma byte_cases (P : Z -> bool) :
  forallb P bytes = true -> forall a, 0 <= a <= 255 -> P a = true.
Proof.
  intros H a Ha. rewrite forallb_forall in H. apply H.
  unfold bytes. apply in_map_iff. exists (Z.to_nat a). split; [lia|].
  apply in_seq. lia.
Qed.

Lemma alpha_lt_one (a : Z) :
  0 <= a <= 255 ->
  F32.ltb (F32.div (F32.of_Z a) f255) F32.one = (a <? 255).
Proof.
  intros Ha.
  apply (byte_cases
           (fun a => Bool.eqb (F32.ltb (F32.div (F32.of_Z a) f255) F32.one)
                              (a <? 255))) in Ha.
  - apply Bool.eqb_prop in Ha. exact Ha.
  - vm_compute. reflexivity.
Qed.

Lemma alpha_gt_zero (a : Z) :
  0 <= a <= 255 ->
  F32.ltb F32.zero (F32.div (F32.of_Z a) f255) = (0 <? a).
Proof.
  intros Ha.
  apply (byte_cases
           (fun a => Bool.eqb (F32.ltb F32.zero (F32.div (F32.of_Z a) f255))
                              (0 <? a))) in Ha.
  - apply Bool.eqb_prop in Ha. exact Ha.
  - vm_compute. reflexivity.
Qed.

Lemma Mat_set_outside {A} (m : Mat A) y x v :
  Mat_at m y x = None -> Mat_set m y x v = m.
Proof.
  destruct m as [r c d]. unfold Mat_at, Mat_set. simpl. intros H.
  f_equal. apply list_insert_ge. apply lookup_ge_None. exact H.
Qed.

Section PixelLemmas.
Context `{Ext : Externals}.

Lemma circleAlphaCut_color img radius y x :
  colorOf <$> Mat_at (circleAlphaCut img radius) y x =
  colorOf <$> Mat_at img y x.
Proof.
  unfold Mat_at, circleAlphaCut. simpl. rewrite list_lookup_imap.
  destruct (data img !! _) as [p|]; [|reflexivity]. simpl.
  destruct (insideUsableRadius _ _ _ _ _); reflexivity.
Qed.

Lemma cutRedMask_color img mask y x :
  colorOf <$> Mat_at (cutRedMaskOutOfAlphaChannel img mask) y x =
  colorOf <$> Mat_at img y x.
Proof.
  unfold Mat_at at 1 2. unfold cutRedMaskOutOfAlphaChannel.
  cbn [data cols rows]. rewrite list_lookup_imap.
  destruct (data img !! _) as [p|]; [|reflexivity]. cbn [fmap option_fmap option_map].
  destruct (Mat_at mask _ _) as [c|]; [|reflexivity].
  destruct (marksPole c); reflexivity.
Qed.

Lemma featherAlphaChannel_color img n y x :
  colorOf <$> Mat_at (featherAlphaChannel img n) y x =
  colorOf <$> Mat_at img y x.
Proof.
  unfold Mat_at, featherAlphaChannel. simpl. rewrite list_lookup_imap.
  destruct (data img !! _) as [p|]; reflexivity.
Qed.

Lemma cvtColor_roundtrip_color raw y x :
  colorOf <$> Mat_at (cvtColor_BGR2BGRA (cvtColor_BGRA2BGR raw)) y x =
  colorOf <$> Mat_at raw y x.
Proof.
  unfold Mat_at, cvtColor_BGR2BGRA, cvtColor_BGRA2BGR. simpl.
  rewrite !list_lookup_fmap.
  destruct (data raw !! _) as [p|]; reflexivity.
Qed.

Lemma workingImage_color raw radius mask n y x :
  colorOf <$> Mat_at (workingImage raw radius mask n) y x =
  colorOf <$> Mat_at raw y x.
Proof.
  unfold workingImage.
  rewrite featherAlphaChannel_color, cutRedMask_color, circleAlphaCut_color.
  apply cvtColor_roundtrip_color.
Qed.

Lemma workingImage_size raw radius mask n :
  Mat_size (workingImage raw radius mask n) = Mat_size raw.
Proof. reflexivity. Qed.

Lemma oriented_size cam img : Mat_size (oriented cam img) = Mat_size img.
Proof. unfold oriented. destruct (flip180 cam); reflexivity. Qed.

(** [flip] with a negative code is the rotation by 180 degrees. *)
Lemma flip_both_at {A} (m : Mat A) y x :
  Mat_wf m -> (y < rows m)%nat -> (x < cols m)%nat ->
  Mat_at (flip m (-1)) y x = Mat_at m (rows m - 1 - y) (cols m - 1 - x).
Proof.
  intros Hwf Hy Hx. unfold Mat_wf in Hwf.
  unfold Mat_at at 1, flip. simpl. rewrite list_lookup_imap.
  assert (Hi : (y * cols m + x < length (data m))%nat) by nia.
  destruct (lookup_lt_is_Some_2 _ _ Hi) as [p Hp]. rewrite Hp. simpl.
  rewrite Nat.div_add_l by lia. rewrite Nat.div_small by lia.
  rewrite Nat.add_0_r.
  replace ((y * cols m + x) mod cols m)%nat with x.
  2:{ rewrite Nat.add_comm, Nat.Div0.mod_add. symmetry. apply Nat.mod_small. lia. }
  assert (Hj : ((rows m - 1 - y) * cols m + (cols m - 1 - x)
                < length (data m))%nat) by nia.
  unfold Mat_at.
  destruct (lookup_lt_is_Some_2 _ _ Hj) as [q Hq]. rewrite Hq. reflexivity.
Qed.

Lemma warpAt_cellUpdate flow y x m :
  warpAt flow y x m =
    cellUpdate (fun y x old => match Mat_at flow y x with
                               | Some d => Point2f_add (Point2f_of_ints x y) d
                               | None => old
                               end) y x m.
Proof.
  unfold warpAt, cellUpdate.
  destruct (Mat_at flow y x) as [d|]; destruct (Mat_at m y x) as [p|] eqn:E;
    try reflexivity.
  - apply Mat_set_outside. exact E.
  - symmetry. apply Mat_set_same. exact E.
Qed.

Lemma buildWarpMat_dims size flow :
  rows (buildWarpMat size flow) = snd size /\
  cols (buildWarpMat size flow) = fst size.
Proof.
  unfold buildWarpMat.
  rewrite (forEachPixel_ext _ _ _ (warpAt_cellUpdate flow)).
  match goal with
  | |- context [forEachPixel (cellUpdate ?f) ?m] =>
      pose proof (forEachPixel_cellUpdate f m) as (H1 & H2 & _)
  end.
  cbv zeta in *. rewrite H1, H2. split; reflexivity.
Qed.

Lemma buildWarpMat_at size flow y x d :
  (y < snd size)%nat -> (x < fst size)%nat ->
  Mat_at flow y x = Some d ->
  Mat_at (buildWarpMat size flow) y x =
    Some (Point2f_add (Point2f_of_ints x y) d).
Proof.
  intros Hy Hx Hd. unfold buildWarpMat.
  rewrite (forEachPixel_ext _ _ _ (warpAt_cellUpdate flow)).
  match goal with
  | |- context [forEachPixel (cellUpdate ?f) ?m] =>
      pose proof (forEachPixel_cellUpdate f m) as (_ & _ & _ & H)
  end.
  cbv zeta in H. rewrite H by (simpl; assumption).
  rewrite Hd. unfold Mat_at, Mat_alloc. simpl.
  rewrite lookup_replicate_2 by nia. reflexivity.
Qed.

Lemma remap_at src map1 interp border y x :
  Mat_at (remap src map1 interp border) y x =
    interpolate interp (borderFetch border Scalar_zero src) <$> Mat_at map1 y x.
Proof.
  unfold Mat_at, remap. simpl. apply list_lookup_fmap.
Qed.

Lemma borderFetch_constant_outside src j i :
  ~ (0 <= j < Z.of_nat (rows src) /\ 0 <= i < Z.of_nat (cols src)) ->
  borderFetch BORDER_CONSTANT Scalar_zero src j i = mkVec4b 0 0 0 0.
Proof.
  intros H. unfold borderFetch.
  destruct (0 <=? j) eqn:E1; destruct (j <? Z.of_nat (rows src)) eqn:E2;
    destruct (0 <=? i) eqn:E3; destruct (i <? Z.of_nat (cols src)) eqn:E4;
    simpl; try reflexivity.
  exfalso. apply H. lia.
Qed.

End PixelLemmas.

(** One step, using an equation of the context for the scrutinee when there
    is one. *)
Ltac kstep H :=
  lazymatch type of H with
  | bind (if ?c then _ else _) _ _ = _ =>
      match goal with E : c = _ |- _ => rewrite E in H end; cbv beta iota in H
  | (if ?c then _ else _) _ = _ =>
      match goal with E : c = _ |- _ => rewrite E in H end; cbv beta iota in H
  | bind (assert _ _) _ _ = _ => unfold assert in H
  | bind (lift ?o) _ _ = _ =>
      match goal with E : o = _ |- _ => rewrite E, bind_lift in H end;
      cbv beta iota in H
  end.

Ltac xstep H := first [kstep H | mstep H].

(** Event lists: case analysis on membership in an explicit list. *)
Ltac in_cases Hin :=
  repeat lazymatch type of Hin with
         | False => destruct Hin
         | _ \/ _ =>
             destruct Hin as [Hin|Hin];
             [first [discriminate Hin|idtac]|]
         end.

(** * Properties stated by the specification *)

(** C1. In the compositing loop, for every pixel [(y, x)] of the primary
    image, with [p] the primary pixel and [q] the adjusted secondary pixel
    found there: the test [alpha < 1.0f] holds exactly when the primary alpha
    byte is below 255, and [alpha2 > 0.0f] exactly when the secondary alpha
    byte is positive. When both hold, each colour channel of the output is
    [a1 * primary + (1 - a1) * secondary], evaluated in [float] and stored
    in the 8-bit channel, and the output alpha is 255. In every other case
    ([a1 = 1], or [a1 < 1] with [a2 = 0]) the loop leaves the primary pixel
    as it is. *)
Theorem C1_blend_rule (bottomImage adjustedBottomImage2 : Mat Vec4b)
    (y x : nat) (p q : Vec4b) :
  (y < rows bottomImage)%nat -> (x < cols bottomImage)%nat ->
  Mat_at bottomImage y x = Some p ->
  Mat_at adjustedBottomImage2 y x = Some q ->
  0 <= v3 p <= 255 -> 0 <= v3 q <= 255 ->
  let a1 := F32.div (F32.of_Z (v3 p)) f255 in
  let a2 := F32.div (F32.of_Z (v3 q)) f255 in
  let mix c1 c2 :=
    F32.to_uchar (F32.add (F32.mul a1 (F32.of_Z c1))
                          (F32.mul (F32.sub F32.one a1) (F32.of_Z c2))) in
  F32.ltb a1 F32.one = (v3 p <? 255) /\
  F32.ltb F32.zero a2 = (0 <? v3 q) /\
  Mat_at (blendLoop bottomImage adjustedBottomImage2) y x =
    Some (if F32.ltb a1 F32.one && F32.ltb F32.zero a2
          then mkVec4b (mix (v0 p) (v0 q)) (mix (v1 p) (v1 q))
                       (mix (v2 p) (v2 q)) 255
          else p).
Proof.
  intros Hy Hx Hp Hq Bp Bq a1 a2 mix.
  split; [apply alpha_lt_one; assumption|].
  split; [apply alpha_gt_zero; assumption|].
  rewrite blendLoop_at by assumption.
  rewrite Hp, Hq. reflexivity.
Qed.

Section SuccessfulCalls.
Context `{Ext : Externals}.

Lemma prepLog_no_write imagesDir poleMaskDir cam cam2 n :
  existsb isWrite (prepLog imagesDir poleMaskDir cam cam2 n) = false.
Proof. unfold prepLog. destruct (flip180 cam2); reflexivity. Qed.

Lemma prevLog_no_write dir : existsb isWrite (prevLog dir) = false.
Proof. unfold prevLog. destruct (negb _); reflexivity. Qed.



(** C4 (amended). In a call that returns a result, nothing is written
    before the flow algorithm has run. The temporal-seed files (flow and the
    two working images) are written right after the flow computation and
    before the warp; the debug images of the primary, the secondary and the
    warped secondary are written after the warp and before colour matching
    and compositing; only the debug image of the combined result is written
    after the final alpha pass. *)
Theorem C4_write_points
    imagesDir poleMaskDir prevFrameDataDir outputDataDir
    saveDebugImages saveFlowDataForNextFrame flowAlgName alphaFeatherSize
    cams fs uw cam out w' :
  combineBottomImagesWithPoleRemoval imagesDir poleMaskDir prevFrameDataDir
    outputDataDir saveDebugImages saveFlowDataForNextFrame flowAlgName
    alphaFeatherSize cams (mkWorld fs uw []) = (Ok (cam, out), w') ->
  exists pre bi bi2 pf p0 p1 flow warped,
    trace w' =
      pre
      ++ [EvComputeFlow bi bi2 pf p0 p1 DOWN]
      ++ (if saveFlowDataForNextFrame
          then [EvSaveFlow (outputDataDir +:+ "/flow/flow_bottom_secondary.bin") flow;
                EvImwrite (outputDataDir +:+ "/flow_images/bottomImage.png") bi;
                EvImwrite (outputDataDir +:+ "/flow_images/bottomImage2.png") bi2]
          else [])
      ++ [EvWarpMat; EvRemap CV_INTER_CUBIC BORDER_CONSTANT]
      ++ (if saveDebugImages
          then [EvImwrite (outputDataDir +:+ "/bottomImage.png") bi;
                EvImwrite (outputDataDir +:+ "/bottomImage2.png") bi2;
                EvImwrite (outputDataDir +:+ "/bottomWarp2.png") warped]
          else [])
      ++ [EvBuildColorModel; EvApplyColorModel; EvBlend;
          EvCircleAlphaCut Primary (usablePixelsRadius cam);
          EvFeather Primary alphaFeatherSize]
      ++ (if saveDebugImages
          then [EvImwrite (outputDataDir +:+ "/_bottomCombined.png") out]
          else [])
    /\ existsb isWrite pre = false
    /\ existsb isMainStage pre = false.
Proof.
  intros H. apply run_ok in H.
  destruct H as (cam2 & raw1 & raw2 & mask1 & mask2 & pf & p0 & p1 & alg & flow & H).
  cbv zeta in H.
  destruct H as (_ & _ & _ & _ & _ & _ & _ & _ & _ & _ & _ & Ht).
  eexists (prepLog imagesDir poleMaskDir cam cam2 alphaFeatherSize
           ++ prevLog prevFrameDataDir ++ [EvMakeFlow flowAlgName]),
          _, _, pf, p0, p1, flow, _.
  split; [|split].
  - rewrite Ht. unfold seedLog, debugLog.
    rewrite <- !app_assoc. reflexivity.
  - rewrite !existsb_app, prepLog_no_write, prevLog_no_write. reflexivity.
  - rewrite !existsb_app. unfold prepLog, prevLog.
    destruct (flip180 cam2); destruct (negb _); reflexivity.
Qed.




(** C3 (amended). In a call that returns a result, the alpha channel, the
    circle cut, the pole-mask cut and the feathering are applied to both raw
    images first. Then, if the secondary camera is marked [flip180], the
    secondary working image is flipped around both axes, and this is the only
    rotation of the call: the image given to the flow algorithm as second
    view is the 180 degree rotation of the masked, feathered secondary image
    (pixel [(y, x)] is pixel [(rows - 1 - y, cols - 1 - x)] of it). The
    primary image is never rotated. *)
Theorem C3_rotation_after_masking
    imagesDir poleMaskDir prevFrameDataDir outputDataDir
    saveDebugImages saveFlowDataForNextFrame flowAlgName alphaFeatherSize
    cams fs uw cam out w' :
  combineBottomImagesWithPoleRemoval imagesDir poleMaskDir prevFrameDataDir
    outputDataDir saveDebugImages saveFlowDataForNextFrame flowAlgName
    alphaFeatherSize cams (mkWorld fs uw []) = (Ok (cam, out), w') ->
  exists cam2 raw1 raw2 mask1 mask2 prevFlow prevI0 prevI1 rest,
    let masked1 :=
      workingImage raw1 (usablePixelsRadius cam) mask1 alphaFeatherSize in
    let masked2 :=
      workingImage raw2 (usablePixelsRadius cam2) mask2 alphaFeatherSize in
    let working2 := if flip180 cam2 then flip masked2 (-1) else masked2 in
    getBottomCamModel2 cams = Ok cam2
    /\ storedImage fs (imagesDir +:+ "/" +:+ cameraId cam +:+ ".png") = Some raw1
    /\ storedImage fs (imagesDir +:+ "/" +:+ cameraId cam2 +:+ ".png") = Some raw2
    /\ storedImage fs (poleMaskDir +:+ "/" +:+ cameraId cam +:+ ".png") = Some mask1
    /\ storedImage fs (poleMaskDir +:+ "/" +:+ cameraId cam2 +:+ ".png") = Some mask2
    /\ trace w' =
         [EvImread (imagesDir +:+ "/" +:+ cameraId cam +:+ ".png") CV_LOAD_IMAGE_COLOR;
          EvImread (imagesDir +:+ "/" +:+ cameraId cam2 +:+ ".png") CV_LOAD_IMAGE_COLOR;
          EvImread (poleMaskDir +:+ "/" +:+ cameraId cam +:+ ".png") CV_LOAD_IMAGE_COLOR;
          EvImread (poleMaskDir +:+ "/" +:+ cameraId cam2 +:+ ".png") CV_LOAD_IMAGE_COLOR;
          EvCvtColor Primary; EvCvtColor Secondary;
          EvCircleAlphaCut Primary (usablePixelsRadius cam);
          EvCircleAlphaCut Secondary (usablePixelsRadius cam2);
          EvCutRedMask Primary; EvCutRedMask Secondary;
          EvFeather Primary alphaFeatherSize;
          EvFeather Secondary alphaFeatherSize]
         ++ (if flip180 cam2 then [EvFlip Secondary (-1)] else [])
         ++ prevLog prevFrameDataDir
         ++ [EvMakeFlow flowAlgName;
             EvComputeFlow masked1 working2 prevFlow prevI0 prevI1 DOWN]
         ++ rest
    /\ existsb (isFlipOf Primary) (trace w') = false
    /\ existsb (isFlipOf Secondary) (prevLog prevFrameDataDir ++ rest) = false
    /\ (flip180 cam2 = true -> Mat_wf raw2 ->
        forall y x, (y < rows raw2)%nat -> (x < cols raw2)%nat ->
          Mat_at working2 y x =
          Mat_at masked2 (rows raw2 - 1 - y) (cols raw2 - 1 - x)).
Proof.
  intros H. apply run_ok in H.
  destruct H as (cam2 & raw1 & raw2 & mask1 & mask2 & pf & p0 & p1 & alg & flow & H).
  cbv zeta in H.
  destruct H as (_ & Hc2 & F1 & F2 & F3 & F4 & _ & _ & _ & _ & _ & Ht).
  exists cam2, raw1, raw2, mask1, mask2, pf, p0, p1. eexists. cbv zeta.
  unfold storedImage. rewrite F1, F2, F3, F4.
  split; [exact Hc2|]. do 4 (split; [reflexivity|]).
  split; [|split; [|split]].
  - rewrite Ht. unfold prepLog, oriented. rewrite <- !app_assoc.
    cbn [app]. reflexivity.
  - rewrite Ht. unfold prepLog, prevLog, seedLog, debugLog.
    destruct (flip180 cam2), (negb _), saveFlowDataForNextFrame,
      saveDebugImages; reflexivity.
  - unfold prevLog, seedLog, debugLog.
    destruct (negb _), saveFlowDataForNextFrame, saveDebugImages; reflexivity.
  - intros Hf Hwf y x Hy Hx. rewrite Hf.
    apply (flip_both_at
             (workingImage raw2 (usablePixelsRadius cam2) mask2 alphaFeatherSize)).
    + unfold Mat_wf, workingImage, featherAlphaChannel,
        cutRedMaskOutOfAlphaChannel, circleAlphaCut, cvtColor_BGR2BGRA,
        cvtColor_BGRA2BGR in *.
      cbn [data rows cols].
      rewrite !length_imap, !length_map. exact Hwf.
    + exact Hy.
    + exact Hx.
Qed.

(** C5. In a call that returns a result, let [primary] be the primary
    working image as it enters the compositing loop. The final
    [circleAlphaCut] and [featherAlphaChannel] leave every colour channel of
    the blended image as it is, and at every pixel where [primary] has alpha
    255 the returned image has the colour of [primary]. *)
Theorem C5_opaque_primary_keeps_color
    imagesDir poleMaskDir prevFrameDataDir outputDataDir
    saveDebugImages saveFlowDataForNextFrame flowAlgName alphaFeatherSize
    cams fs uw cam out w' raw mask :
  combineBottomImagesWithPoleRemoval imagesDir poleMaskDir prevFrameDataDir
    outputDataDir saveDebugImages saveFlowDataForNextFrame flowAlgName
    alphaFeatherSize cams (mkWorld fs uw []) = (Ok (cam, out), w') ->
  storedImage fs (imagesDir +:+ "/" +:+ cameraId cam +:+ ".png") = Some raw ->
  storedImage fs (poleMaskDir +:+ "/" +:+ cameraId cam +:+ ".png") = Some mask ->
  let primary :=
    workingImage raw (usablePixelsRadius cam) mask alphaFeatherSize in
  exists adjusted,
    out = featherAlphaChannel
            (circleAlphaCut (blendLoop primary adjusted) (usablePixelsRadius cam))
            alphaFeatherSize
    /\ (forall y x,
          colorOf <$> Mat_at out y x =
          colorOf <$> Mat_at (blendLoop primary adjusted) y x)
    /\ (forall y x p,
          (y < rows primary)%nat -> (x < cols primary)%nat ->
          Mat_at primary y x = Some p -> v3 p = 255 ->
          exists q, Mat_at out y x = Some q /\ colorOf q = colorOf p).
Proof.
  intros H Hraw Hmask primary. apply run_ok in H.
  destruct H as (cam2 & raw1 & raw2 & mask1 & mask2 & pf & p0 & p1 & alg & flow & H).
  cbv zeta in H.
  destruct H as (_ & _ & F1 & _ & F3 & _ & _ & _ & _ & _ & Hout & _).
  unfold storedImage in Hraw, Hmask. rewrite F1 in Hraw. rewrite F3 in Hmask.
  injection Hraw as ->. injection Hmask as ->. subst primary.
  eexists. split; [exact Hout|].
  match type of Hout with
  | _ = featherAlphaChannel (circleAlphaCut ?blended _) _ =>
      assert (Hcol : forall y x,
                colorOf <$> Mat_at out y x = colorOf <$> Mat_at blended y x)
  end.
  { intros y x. rewrite Hout.
    rewrite featherAlphaChannel_color, circleAlphaCut_color. reflexivity. }
  split; [exact Hcol|].
  intros y x p Hy Hx Hp Ha.
  specialize (Hcol y x). rewrite blendLoop_at in Hcol by assumption.
  rewrite Hp in Hcol. cbn [fmap option_fmap option_map] in Hcol.
  destruct (Mat_at out y x) as [q|]; [|discriminate].
  exists q. split; [reflexivity|].
  cbn [fmap option_fmap option_map] in Hcol.
  pose proof (f_equal (fun o => match o with
                                | Some c => c
                                | None => colorOf q
                                end) Hcol) as Hc.
  cbv beta iota in Hc. rewrite Hc.
  destruct (Mat_at _ y x) as [s|]; [|reflexivity].
  unfold blendPixel. rewrite Ha.
  replace (F32.ltb (F32.div (F32.of_Z 255) f255) F32.one) with false
    by (vm_compute; reflexivity).
  reflexivity.
Qed.

Lemma warped_size src size flow interp border :
  Mat_size (remap src (buildWarpMat size flow) interp border) = size.
Proof.
  destruct (buildWarpMat_dims size flow) as [Hr Hc].
  destruct size as [c r]. unfold Mat_size, remap. cbn [rows cols].
  rewrite Hr, Hc. reflexivity.
Qed.

(** C7. In a call that returns a result, the image that is colour-matched
    and blended is [warped], of the size of the primary working image, where
    for every destination pixel [(x, y)] with flow [d = flow.at(y, x)] the
    pixel of [warped] is the cubic interpolation of the secondary working
    image around [(x + d.x, y + d.y)] ([float] additions), read with a
    constant border: every tap outside the secondary image yields the pixel
    [(0, 0, 0, 0)], fully transparent. The flow is the one the flow algorithm
    returned for the two working images. *)
Theorem C7_warp_construction
    imagesDir poleMaskDir prevFrameDataDir outputDataDir
    saveDebugImages saveFlowDataForNextFrame flowAlgName alphaFeatherSize
    cams fs uw cam out w' :
  combineBottomImagesWithPoleRemoval imagesDir poleMaskDir prevFrameDataDir
    outputDataDir saveDebugImages saveFlowDataForNextFrame flowAlgName
    alphaFeatherSize cams (mkWorld fs uw []) = (Ok (cam, out), w') ->
  exists bi bi2 prevFlow prevI0 prevI1 alg flow warped,
    In (EvComputeFlow bi bi2 prevFlow prevI0 prevI1 DOWN) (trace w')
    /\ makeOpticalFlowByName flowAlgName = Ok alg
    /\ @computeOpticalFlow alg bi bi2 prevFlow prevI0 prevI1 DOWN = Ok flow
    /\ In (EvRemap CV_INTER_CUBIC BORDER_CONSTANT) (trace w')
    /\ out = featherAlphaChannel
               (circleAlphaCut
                  (blendLoop bi
                     (applyColorAdjustmentModel warped
                        (buildColorAdjustmentModel bi warped)))
                  (usablePixelsRadius cam))
               alphaFeatherSize
    /\ Mat_size warped = Mat_size bi
    /\ (forall y x d,
          (y < rows bi)%nat -> (x < cols bi)%nat ->
          Mat_at flow y x = Some d ->
          Mat_at warped y x =
            Some (interpolate CV_INTER_CUBIC
                    (borderFetch BORDER_CONSTANT Scalar_zero bi2)
                    (mkPoint2f (F32.add (F32.of_Z (Z.of_nat x)) (ptx d))
                               (F32.add (F32.of_Z (Z.of_nat y)) (pty d)))))
    /\ (forall j i,
          ~ (0 <= j < Z.of_nat (rows bi2) /\ 0 <= i < Z.of_nat (cols bi2)) ->
          borderFetch BORDER_CONSTANT Scalar_zero bi2 j i = mkVec4b 0 0 0 0).
Proof.
  intros H. apply run_ok in H.
  destruct H as (cam2 & raw1 & raw2 & mask1 & mask2 & pf & p0 & p1 & alg & flow & H).
  cbv zeta in H.
  destruct H as (_ & _ & _ & _ & _ & _ & _ & Halg & Hflow & _ & Hout & Ht).
  eexists _, _, pf, p0, p1, alg, flow, _.
  split; [|split; [exact Halg|split; [exact Hflow|split; [|split; [exact Hout|]]]]].
  - rewrite Ht. rewrite !in_app_iff. right. right. left. right. left. reflexivity.
  - rewrite Ht. rewrite !in_app_iff. do 4 right. left. right. left. reflexivity.
  - split; [|split].
    + apply warped_size.
    + intros y x d Hy Hx Hd.
      rewrite remap_at.
      rewrite (buildWarpMat_at _ flow y x d) by assumption.
      reflexivity.
    + apply borderFetch_constant_outside.
Qed.

End SuccessfulCalls.

Section FailingCalls.
Context `{Ext : Externals}.

(** C6. When the two bottom cameras are resolved and the pole mask of
    either of them is absent or has no rows or no columns, the call fails
    with a [VrCamException] for a missing resource (an image that cannot be
    loaded, or "missing or bad pole mask"), and up to the failure no step has
    touched a pixel of a working image: no alpha channel, circle cut, mask
    cut, feathering or later stage; nothing has been written either. *)
Theorem C6_bad_pole_mask
    imagesDir poleMaskDir prevFrameDataDir outputDataDir
    saveDebugImages saveFlowDataForNextFrame flowAlgName alphaFeatherSize
    cams fs uw cam cam2 r w' :
  getBottomCamModel cams = Ok cam ->
  getBottomCamModel2 cams = Ok cam2 ->
  badMask fs (poleMaskDir +:+ "/" +:+ cameraId cam +:+ ".png") \/
  badMask fs (poleMaskDir +:+ "/" +:+ cameraId cam2 +:+ ".png") ->
  combineBottomImagesWithPoleRemoval imagesDir poleMaskDir prevFrameDataDir
    outputDataDir saveDebugImages saveFlowDataForNextFrame flowAlgName
    alphaFeatherSize cams (mkWorld fs uw []) = (r, w') ->
  (exists e, r = Throw e /\ MissingResourceError e)
  /\ existsb isPixelStep (trace w') = false
  /\ existsb isWrite (trace w') = false
  /\ files w' = fs.
Proof.
  intros Hc Hc2 Hbad H. unfold combineBottomImagesWithPoleRemoval in H.
  do 2 xstep H.
  do 4 (xstep H;
        [| injection H as <- <-;
           (split; [eexists; split; [reflexivity|left; eexists; reflexivity]|]);
           repeat split ..]).
  xstep H.
  - unfold throw in H. injection H as <- <-.
    split; [eexists; split; [reflexivity|right; eexists _, _; reflexivity]|].
    repeat split.
  - exfalso. unfold badMask, storedImage in Hbad.
    repeat match goal with
           | E : fs !! _ = Some (ImageFile _) |- _ => rewrite E in Hbad; clear E
           end.
    match goal with
    | E : _ || _ = false |- _ =>
        cbn [cvtColor_BGRA2BGR rows cols] in E; rename E into Hz
    end.
    apply orb_false_iff in Hz as [Hz Hz4].
    apply orb_false_iff in Hz as [Hz Hz3].
    apply orb_false_iff in Hz as [Hz1 Hz2].
    apply Nat.eqb_neq in Hz1, Hz2, Hz3, Hz4.
    destruct Hbad as [[?|?]|[?|?]]; contradiction.
Qed.


End FailingCalls.

(** ** The properties on the concrete rig *)

Lemma C1_blend_rule_witness :
  Mat_at Rig.working0 0 0 = Some (Rig.px 10 20 30 0) /\
  Mat_at Rig.working1 0 0 = Some (Rig.px 4 5 6 255) /\
  Mat_at (blendLoop Rig.working0 Rig.working1) 0 0 = Some (Rig.px 4 5 6 255).
Proof.
  split; [reflexivity|]. split; [reflexivity|].
  destruct (C1_blend_rule Rig.working0 Rig.working1 0 0
              (Rig.px 10 20 30 0) (Rig.px 4 5 6 255)) as (_ & _ & H);
    [simpl; lia | simpl; lia | reflexivity | reflexivity
    | simpl; lia | simpl; lia |].
  rewrite H. vm_compute. reflexivity.
Defined.

Lemma C4_write_points_witness :
  Rig.frame false Rig.world = (Ok (Rig.cam0, Rig.combined), Rig.final) /\
  exists pre rest,
    trace Rig.final = pre ++ EvComputeFlow Rig.working0 Rig.working1
                                Mat_empty Mat_empty Mat_empty DOWN :: rest
    /\ existsb isWrite pre = false.
Proof.
  split; [vm_compute; reflexivity|].
  destruct (C4_write_points (Ext := Rig.externals false)
              "img" "mask" "NONE" "out" true true "zero" 0 Rig.cams
              Rig.disk ∅ Rig.cam0 Rig.combined Rig.final)
    as (pre & bi & bi2 & pf & p0 & p1 & flow & warped & Ht & Hw & _);
    [vm_compute; reflexivity|].
  exists [EvImread "img/cam0.png" 1; EvImread "img/cam1.png" 1;
          EvImread "mask/cam0.png" 1; EvImread "mask/cam1.png" 1;
          EvCvtColor Primary; EvCvtColor Secondary;
          EvCircleAlphaCut Primary 10; EvCircleAlphaCut Secondary 10;
          EvCutRedMask Primary; EvCutRedMask Secondary;
          EvFeather Primary 0; EvFeather Secondary 0;
          EvFlip Secondary (-1); EvMakeFlow "zero"].
  eexists. split; reflexivity.
Defined.




Lemma C3_rotation_after_masking_witness :
  Rig.frame false Rig.world = (Ok (Rig.cam0, Rig.combined), Rig.final) /\
  existsb (isFlipOf Primary) (trace Rig.final) = false.
Proof.
  split; [vm_compute; reflexivity|].
  destruct (C3_rotation_after_masking (Ext := Rig.externals false)
              "img" "mask" "NONE" "out" true true "zero" 0 Rig.cams
              Rig.disk ∅ Rig.cam0 Rig.combined Rig.final)
    as (cam2 & raw1 & raw2 & mask1 & mask2 & pf & p0 & p1 & rest & H);
    [vm_compute; reflexivity|].
  cbv zeta in H. destruct H as (_ & _ & _ & _ & _ & _ & H & _). exact H.
Defined.

Lemma C5_opaque_primary_keeps_color_witness :
  Rig.frame false Rig.world = (Ok (Rig.cam0, Rig.combined), Rig.final) /\
  Mat_at Rig.working0 0 1 = Some (Rig.px 40 50 60 255) /\
  exists q, Mat_at Rig.combined 0 1 = Some q /\ colorOf q = (40, 50, 60).
Proof.
  split; [vm_compute; reflexivity|]. split; [reflexivity|].
  destruct (C5_opaque_primary_keeps_color (Ext := Rig.externals false)
              "img" "mask" "NONE" "out" true true "zero" 0 Rig.cams
              Rig.disk ∅ Rig.cam0 Rig.combined Rig.final Rig.raw0 Rig.mask)
    as (adjusted & _ & _ & H);
    [vm_compute; reflexivity | vm_compute; reflexivity
    | vm_compute; reflexivity |].
  apply (H 0%nat 1%nat (Rig.px 40 50 60 255));
    [simpl; lia | simpl; lia | vm_compute; reflexivity | reflexivity].
Defined.

Lemma C7_warp_construction_witness :
  Rig.frame false Rig.world = (Ok (Rig.cam0, Rig.combined), Rig.final) /\
  In (EvRemap CV_INTER_CUBIC BORDER_CONSTANT) (trace Rig.final).
Proof.
  split; [vm_compute; reflexivity|].
  destruct (C7_warp_construction (Ext := Rig.externals false)
              "img" "mask" "NONE" "out" true true "zero" 0 Rig.cams
              Rig.disk ∅ Rig.cam0 Rig.combined Rig.final)
    as (bi & bi2 & pf & p0 & p1 & alg & flow & warped & _ & _ & _ & H & _);
    [vm_compute; reflexivity|exact H].
Defined.

Lemma C6_bad_pole_mask_witness :
  badMask Rig.masklessDisk "mask/cam1.png" /\
  (exists e, fst (Rig.frame false Rig.masklessWorld) = Throw e /\
             MissingResourceError e) /\
  existsb isPixelStep (trace (snd (Rig.frame false Rig.masklessWorld))) = false.
Proof.
  assert (Hbad : badMask Rig.masklessDisk "mask/cam1.png")
    by (vm_compute; exact I).
  split; [exact Hbad|].
  destruct (C6_bad_pole_mask (Ext := Rig.externals false)
              "img" "mask" "NONE" "out" true true "zero" 0 Rig.cams
              Rig.masklessDisk ∅ Rig.cam0 Rig.cam1
              (fst (Rig.frame false Rig.masklessWorld))
              (snd (Rig.frame false Rig.masklessWorld)))
    as (H1 & H2 & _);
    [reflexivity | reflexivity | right; exact Hbad
    | vm_compute; reflexivity |].
  split; assumption.
Defined.



(** C3: both cameras are marked inverted; the primary image is never
    rotated, and the secondary one is rotated after masking and feathering,
    which differs from rotating first. *)
Lemma C3_counterexample :
  flip180 Rig.cam0 = true /\ flip180 Rig.cam1 = true /\
  Rig.frame false Rig.world = (Ok (Rig.cam0, Rig.combined), Rig.final) /\
  existsb (isFlipOf Primary) (trace Rig.final) = false /\
  precedesb (isMaskStepOf Secondary) (isFlipOf Secondary) (trace Rig.final)
    = true /\
  precedesb (isFlipOf Secondary) (isMaskStepOf Secondary) (trace Rig.final)
    = false /\
  List.filter isComputeFlow (trace Rig.final) =
    [EvComputeFlow Rig.working0 Rig.working1
       Mat_empty Mat_empty Mat_empty DOWN] /\
  @workingImage_spec (Rig.externals false) Rig.cam0 Rig.raw0 Rig.mask 0
    = mkMat 1 2 [Rig.px 40 50 60 0; Rig.px 10 20 30 255] /\
  @workingImage_spec (Rig.externals false) Rig.cam1 Rig.raw1 Rig.mask 0
    = mkMat 1 2 [Rig.px 4 5 6 0; Rig.px 1 2 3 255] /\
  Rig.working0 <> mkMat 1 2 [Rig.px 40 50 60 0; Rig.px 10 20 30 255] /\
  Rig.working1 <> mkMat 1 2 [Rig.px 4 5 6 0; Rig.px 1 2 3 255].
Proof.
  repeat split; try (vm_compute; reflexivity); discriminate.
Qed.

(** C4: with both outputs enabled, the seed files and three debug images are
    written before colour matching and compositing have run. *)
Lemma C4_counterexample :
  Rig.frame false Rig.world = (Ok (Rig.cam0, Rig.combined), Rig.final) /\
  precedesb isWrite isMainStage (trace Rig.final) = true /\
  trace Rig.final !! 15%nat =
    Some (EvSaveFlow "out/flow/flow_bottom_secondary.bin"
            (mkMat 1 2 [Point2f_zero; Point2f_zero])) /\
  trace Rig.final !! 18%nat = Some EvWarpMat /\
  trace Rig.final !! 22%nat =
    Some (EvImwrite "out/bottomWarp2.png" Rig.working1) /\
  trace Rig.final !! 23%nat = Some EvBuildColorModel /\
  trace Rig.final !! 25%nat = Some EvBlend.
Proof.
  repeat split; vm_compute; reflexivity.
Qed.

(** * Further properties of the function *)

(** ** More on the two pixel loops *)

Lemma blendPixel_idem p q : blendPixel (blendPixel p q) q = blendPixel p q.
Proof.
  unfold blendPixel at 2 3. cbv zeta.
  destruct (F32.ltb (F32.div (F32.of_Z (v3 p)) f255) F32.one
            && F32.ltb F32.zero (F32.div (F32.of_Z (v3 q)) f255)) eqn:E.
  - unfold blendPixel. cbn [v3].
    replace (F32.ltb (F32.div (F32.of_Z 255) f255) F32.one) with false
      by (vm_compute; reflexivity).
    reflexivity.
  - unfold blendPixel. cbv zeta. rewrite E. reflexivity.
Qed.

(** X1. The compositing loop is idempotent: running it a second time on
    its own result, with the same adjusted secondary image, changes no pixel
    (a blended pixel is fully opaque and is never blended again). *)
Theorem blendLoop_idempotent (bottomImage adjustedBottomImage2 : Mat Vec4b)
    (y x : nat) :
  (y < rows bottomImage)%nat -> (x < cols bottomImage)%nat ->
  Mat_at (blendLoop (blendLoop bottomImage adjustedBottomImage2)
                    adjustedBottomImage2) y x =
  Mat_at (blendLoop bottomImage adjustedBottomImage2) y x.
Proof.
  intros Hy Hx.
  destruct (blendLoop_dims bottomImage adjustedBottomImage2) as [Hr Hc].
  rewrite blendLoop_at by (rewrite ?Hr, ?Hc; assumption).
  rewrite blendLoop_at by assumption.
  destruct (Mat_at bottomImage y x) as [p|]; [|reflexivity].
  cbn [fmap option_fmap option_map].
  destruct (Mat_at adjustedBottomImage2 y x) as [q|]; [|reflexivity].
  rewrite blendPixel_idem. reflexivity.
Qed.

(** Float facts on bytes, by enumeration. *)
Lemma zero_alpha_mul (c : Z) :
  isByte c ->
  F32.mul (F32.div (F32.of_Z 0) f255) (F32.of_Z c) = F32.zero.
Proof.
  intros Hc.
  apply (byte_cases
           (fun c => match F32.mul (F32.div (F32.of_Z 0) f255) (F32.of_Z c) with
                     | S754_zero false => true
                     | _ => false
                     end)) in Hc.
  - destruct (F32.mul _ _) as [[|]| | |]; try discriminate. reflexivity.
  - vm_compute. reflexivity.
Qed.

Lemma full_weight_byte (c : Z) :
  isByte c ->
  F32.to_uchar
    (F32.add F32.zero
       (F32.mul (F32.sub F32.one (F32.div (F32.of_Z 0) f255)) (F32.of_Z c)))
  = c.
Proof.
  intros Hc.
  apply (byte_cases
           (fun c => F32.to_uchar
                       (F32.add F32.zero
                          (F32.mul (F32.sub F32.one
                                      (F32.div (F32.of_Z 0) f255))
                                   (F32.of_Z c))) =? c)) in Hc.
  - apply Z.eqb_eq. exact Hc.
  - vm_compute. reflexivity.
Qed.

(** X2. Where the primary pixel is fully transparent (alpha 0) and the
    adjusted secondary pixel has some alpha, the compositing loop stores
    exactly the secondary pixel's three colour bytes, with alpha 255: the
    [float] arithmetic loses nothing there. *)
Theorem blendLoop_fills_hole (bottomImage adjustedBottomImage2 : Mat Vec4b)
    (y x : nat) (p q : Vec4b) :
  (y < rows bottomImage)%nat -> (x < cols bottomImage)%nat ->
  Mat_at bottomImage y x = Some p ->
  Mat_at adjustedBottomImage2 y x = Some q ->
  Vec4b_bytes p -> Vec4b_bytes q ->
  v3 p = 0 -> 0 < v3 q ->
  Mat_at (blendLoop bottomImage adjustedBottomImage2) y x =
    Some (mkVec4b (v0 q) (v1 q) (v2 q) 255).
Proof.
  intros Hy Hx Hp Hq (P0 & P1 & P2 & P3) (Q0 & Q1 & Q2 & Q3) Ha Ha2.
  rewrite blendLoop_at by assumption. rewrite Hp, Hq.
  cbn [fmap option_fmap option_map]. f_equal.
  unfold blendPixel. cbv zeta.
  rewrite alpha_lt_one, alpha_gt_zero by assumption.
  rewrite Ha.
  replace (0 <? 255) with true by reflexivity.
  replace (0 <? v3 q) with true by (symmetry; apply Z.ltb_lt; exact Ha2).
  cbn [andb].
  rewrite !zero_alpha_mul by assumption.
  rewrite !full_weight_byte by assumption.
  reflexivity.
Qed.

Lemma Mat_index_coords {A} (m : Mat A) (i : nat) :
  Mat_wf m -> (i < length (data m))%nat ->
  exists y x, (y < rows m)%nat /\ (x < cols m)%nat /\
              i = (y * cols m + x)%nat.
Proof.
  unfold Mat_wf. intros Hwf Hi.
  assert (Hc : (cols m <> 0)%nat) by nia.
  exists (i / cols m)%nat, (i mod cols m)%nat.
  split; [|split].
  - apply Nat.Div0.div_lt_upper_bound. nia.
  - apply Nat.mod_upper_bound. exact Hc.
  - rewrite Nat.mul_comm. apply Nat.div_mod_eq.
Qed.

Lemma blendLoop_length bi adj :
  length (data (blendLoop bi adj)) = length (data bi).
Proof.
  unfold blendLoop.
  rewrite (forEachPixel_ext _ _ _ (blendAt_cellUpdate adj)).
  match goal with
  | |- context [forEachPixel (cellUpdate ?f) ?m] =>
      pose proof (forEachPixel_cellUpdate f m) as (_ & _ & H & _)
  end.
  exact H.
Qed.

Lemma Mat_ext {A} (m1 m2 : Mat A) :
  rows m1 = rows m2 -> cols m1 = cols m2 -> data m1 = data m2 -> m1 = m2.
Proof. destruct m1, m2. simpl. intros -> -> ->. reflexivity. Qed.

(** X3. When at every pixel the primary is fully opaque or the adjusted
    secondary is fully transparent, the compositing loop returns the primary
    image itself: same dimensions, same buffer. *)
Theorem blendLoop_nothing_to_fill
    (bottomImage adjustedBottomImage2 : Mat Vec4b) :
  Mat_wf bottomImage ->
  (forall y x p q,
     (y < rows bottomImage)%nat -> (x < cols bottomImage)%nat ->
     Mat_at bottomImage y x = Some p ->
     Mat_at adjustedBottomImage2 y x = Some q ->
     v3 p = 255 \/ v3 q = 0) ->
  blendLoop bottomImage adjustedBottomImage2 = bottomImage.
Proof.
  intros Hwf Hall.
  destruct (blendLoop_dims bottomImage adjustedBottomImage2) as [Hr Hc].
  apply Mat_ext; [exact Hr|exact Hc|].
  apply list_eq. intros i.
  destruct (decide (i < length (data bottomImage))%nat) as [Hi|Hi].
  - destruct (Mat_index_coords bottomImage i Hwf Hi) as (y & x & Hy & Hx & ->).
    pose proof (blendLoop_at bottomImage adjustedBottomImage2 y x Hy Hx) as H.
    unfold Mat_at at 1 in H. rewrite Hc in H. rewrite H.
    unfold Mat_at at 2.
    destruct (data bottomImage !! (y * cols bottomImage + x)%nat) as [p|] eqn:Ep;
      [|reflexivity].
    cbn [fmap option_fmap option_map]. f_equal.
    destruct (Mat_at adjustedBottomImage2 y x) as [q|] eqn:Eq; [|reflexivity].
    unfold blendPixel. cbv zeta.
    destruct (Hall y x p q Hy Hx Ep Eq) as [Ha|Ha]; rewrite Ha.
    + replace (F32.ltb (F32.div (F32.of_Z 255) f255) F32.one) with false
        by (vm_compute; reflexivity).
      reflexivity.
    + replace (F32.ltb F32.zero (F32.div (F32.of_Z 0) f255)) with false
        by (vm_compute; reflexivity).
      rewrite andb_false_r. reflexivity.
  - rewrite !lookup_ge_None_2; [reflexivity|lia|].
    rewrite blendLoop_length. lia.
Qed.

(** X4. After the compositing loop a pixel is not fully opaque only where
    the adjusted secondary image is fully transparent, and such a pixel is
    the primary pixel unchanged: the loop leaves a hole only where both
    views have one. *)
Theorem blendLoop_leaves_holes_only_where_secondary_is_empty
    (bottomImage adjustedBottomImage2 : Mat Vec4b)
    (y x : nat) (p q o : Vec4b) :
  (y < rows bottomImage)%nat -> (x < cols bottomImage)%nat ->
  Mat_at bottomImage y x = Some p ->
  Mat_at adjustedBottomImage2 y x = Some q ->
  isByte (v3 p) -> isByte (v3 q) ->
  Mat_at (blendLoop bottomImage adjustedBottomImage2) y x = Some o ->
  v3 o <> 255 ->
  v3 q = 0 /\ o = p.
Proof.
  intros Hy Hx Hp Hq Bp Bq Ho Hne.
  rewrite blendLoop_at in Ho by assumption. rewrite Hp, Hq in Ho.
  cbn [fmap option_fmap option_map] in Ho. injection Ho as <-.
  unfold blendPixel in *. cbv zeta in *.
  rewrite alpha_lt_one, alpha_gt_zero in * by assumption.
  destruct (v3 p <? 255) eqn:E1; destruct (0 <? v3 q) eqn:E2;
    cbn [andb] in *; try (cbn [v3] in Hne; congruence).
  - apply Z.ltb_ge in E2. unfold isByte in Bq. split; [lia|reflexivity].
  - apply Z.ltb_ge in E1. unfold isByte in Bp. exfalso. apply Hne. lia.
  - apply Z.ltb_ge in E1. unfold isByte in Bp. exfalso. apply Hne. lia.
Qed.

Lemma of_nat_add_zero (n : nat) :
  F32.add (F32.of_Z (Z.of_nat n)) F32.zero = F32.of_Z (Z.of_nat n).
Proof.
  change F32.zero with (S754_zero false).
  unfold F32.of_Z, binary_normalize.
  destruct (Z.of_nat n) as [|m|m] eqn:E; [reflexivity| |lia].
  unfold binary_round, binary_round_aux.
  destruct (shl_align _ _ _) as [mz ez].
  destruct (shr_fexp _ _ _ _ _) as [mrs e'].
  destruct (shr_fexp _ _ _ _ _) as [mrs2 e2].
  destruct (shr_m mrs2); [reflexivity| |reflexivity].
  destruct (Z.leb _ _); reflexivity.
Qed.

(** X5. With a flow that is zero at a pixel, the warp map sends that pixel
    to its own coordinates [(x, y)]: the [float] addition of line 124 adds
    nothing. *)
Theorem buildWarpMat_zero_flow (size : nat * nat) (flow : Mat Point2f)
    (y x : nat) :
  (y < snd size)%nat -> (x < fst size)%nat ->
  Mat_at flow y x = Some Point2f_zero ->
  Mat_at (buildWarpMat size flow) y x = Some (Point2f_of_ints x y).
Proof.
  intros Hy Hx Hd.
  rewrite (buildWarpMat_at size flow y x Point2f_zero Hy Hx Hd).
  unfold Point2f_add, Point2f_of_ints, Point2f_zero. cbn [ptx pty].
  rewrite !of_nat_add_zero. reflexivity.
Qed.

Lemma append_inj_l (s a b : string) : s +:+ a = s +:+ b -> a = b.
Proof.
  induction s as [|c s IH]; simpl; intros H; [exact H|].
  injection H as H. apply IH. exact H.
Qed.

(** Two output paths under one directory differ when their names do. *)
Ltac path_ne :=
  let E := fresh in
  intros E; apply append_inj_l in E; discriminate E.

Section MoreOnCalls.
Context `{Ext : Externals}.

Lemma run_ok_files
    imagesDir poleMaskDir prevFrameDataDir outputDataDir
    saveDebugImages saveFlowDataForNextFrame flowAlgName alphaFeatherSize
    cams fs uw cam out w' :
  combineBottomImagesWithPoleRemoval imagesDir poleMaskDir prevFrameDataDir
    outputDataDir saveDebugImages saveFlowDataForNextFrame flowAlgName
    alphaFeatherSize cams (mkWorld fs uw []) = (Ok (cam, out), w') ->
  exists bi bi2 pf p0 p1 flow alg,
    In (EvComputeFlow bi bi2 pf p0 p1 DOWN) (trace w') /\
    makeOpticalFlowByName flowAlgName = Ok alg /\
    @computeOpticalFlow alg bi bi2 pf p0 p1 DOWN = Ok flow /\
    files w' =
      (if saveDebugImages
       then <[outputDataDir +:+ "/_bottomCombined.png" := ImageFile out]>
       else id)
        ((if saveDebugImages
          then writeDebug outputDataDir bi bi2
                 (remap bi2 (buildWarpMat (Mat_size bi) flow)
                        CV_INTER_CUBIC BORDER_CONSTANT)
          else id)
           ((if saveFlowDataForNextFrame
             then writeSeed outputDataDir flow bi bi2
             else id) fs)).
Proof.
  intros H. unfold combineBottomImagesWithPoleRemoval in H.
  mrun H.
  all: injection H as <- <- <-.
  all: eexists _, _, _, _, _, _, _.
  all: split;
    [cbn [trace app In]; repeat (first [left; reflexivity | right])|].
  all: split; [first [eassumption|reflexivity]|].
  all: split; [first [eassumption|reflexivity]|].
  all: reflexivity.
Qed.

End MoreOnCalls.

Section MoreProperties.
Context `{Ext : Externals}.

Lemma workingImage_wf raw radius mask n :
  Mat_wf raw -> Mat_wf (workingImage raw radius mask n).
Proof.
  unfold Mat_wf, workingImage, featherAlphaChannel,
    cutRedMaskOutOfAlphaChannel, circleAlphaCut, cvtColor_BGR2BGRA,
    cvtColor_BGRA2BGR.
  cbn [data rows cols]. rewrite !length_imap, !length_map. auto.
Qed.

Lemma blendLoop_size bi adj : Mat_size (blendLoop bi adj) = Mat_size bi.
Proof.
  destruct (blendLoop_dims bi adj) as [Hr Hc].
  unfold Mat_size at 1 2. rewrite Hr, Hc. reflexivity.
Qed.

Lemma final_pass_size img radius n :
  Mat_size (featherAlphaChannel (circleAlphaCut img radius) n) = Mat_size img.
Proof. reflexivity. Qed.

(** X6. A call that returns a result returns an image with the dimensions
    of the primary camera's raw image, and a well-formed one when that file
    is well-formed. *)
Theorem output_has_primary_size
    imagesDir poleMaskDir prevFrameDataDir outputDataDir
    saveDebugImages saveFlowDataForNextFrame flowAlgName alphaFeatherSize
    cams fs uw cam out w' raw :
  combineBottomImagesWithPoleRemoval imagesDir poleMaskDir prevFrameDataDir
    outputDataDir saveDebugImages saveFlowDataForNextFrame flowAlgName
    alphaFeatherSize cams (mkWorld fs uw []) = (Ok (cam, out), w') ->
  storedImage fs (imagesDir +:+ "/" +:+ cameraId cam +:+ ".png") = Some raw ->
  Mat_size out = Mat_size raw /\ (Mat_wf raw -> Mat_wf out).
Proof.
  intros H Hraw. apply run_ok in H.
  destruct H as (cam2 & raw1 & raw2 & mask1 & mask2 & pf & p0 & p1 & alg & flow & H).
  cbv zeta in H.
  destruct H as (_ & _ & F1 & _ & _ & _ & _ & _ & _ & _ & Hout & _).
  unfold storedImage in Hraw. rewrite F1 in Hraw. injection Hraw as ->.
  match type of Hout with
  | _ = featherAlphaChannel (circleAlphaCut (blendLoop ?bi ?adj) _) _ =>
      destruct (blendLoop_dims bi adj) as [Hr Hc];
      pose proof (blendLoop_length bi adj) as Hl
  end.
  split.
  - rewrite Hout, final_pass_size, blendLoop_size. apply workingImage_size.
  - intros Hwf.
    apply (workingImage_wf raw (usablePixelsRadius cam) mask1 alphaFeatherSize)
      in Hwf.
    rewrite Hout. unfold Mat_wf in *.
    unfold featherAlphaChannel, circleAlphaCut. cbn [rows cols data].
    rewrite !length_imap, Hl, Hr, Hc. exact Hwf.
Qed.

(** X7. With assertions compiled in, a call returns a result only if the
    raw images of the two bottom cameras have the same dimensions. *)
Theorem result_needs_equal_sizes
    imagesDir poleMaskDir prevFrameDataDir outputDataDir
    saveDebugImages saveFlowDataForNextFrame flowAlgName alphaFeatherSize
    cams fs uw cam cam2 out w' raw raw2 :
  NDEBUG = false ->
  combineBottomImagesWithPoleRemoval imagesDir poleMaskDir prevFrameDataDir
    outputDataDir saveDebugImages saveFlowDataForNextFrame flowAlgName
    alphaFeatherSize cams (mkWorld fs uw []) = (Ok (cam, out), w') ->
  getBottomCamModel2 cams = Ok cam2 ->
  storedImage fs (imagesDir +:+ "/" +:+ cameraId cam +:+ ".png") = Some raw ->
  storedImage fs (imagesDir +:+ "/" +:+ cameraId cam2 +:+ ".png") = Some raw2 ->
  Mat_size raw = Mat_size raw2.
Proof.
  intros HN H Hc2 Hraw Hraw2. apply run_ok in H.
  destruct H as (c2 & r1 & r2 & mask1 & mask2 & pf & p0 & p1 & alg & flow & H).
  cbv zeta in H.
  destruct H as (_ & Hc2' & F1 & F2 & _ & _ & _ & _ & _ & Hsz & _).
  rewrite Hc2 in Hc2'. injection Hc2' as <-.
  unfold storedImage in Hraw, Hraw2. rewrite F1 in Hraw. rewrite F2 in Hraw2.
  injection Hraw as ->. injection Hraw2 as ->.
  destruct Hsz as [Hsz|Hsz]; [congruence|].
  rewrite oriented_size, !workingImage_size in Hsz. exact Hsz.
Qed.

(** X8. Whatever the outcome of a call, every path other than the seven
    output files under [outputDataDir] holds afterwards what it held before;
    with both [saveDebugImages] and [saveFlowDataForNextFrame] off, the file
    system is left exactly as it was. *)
Theorem only_output_paths_change
    imagesDir poleMaskDir prevFrameDataDir outputDataDir
    saveDebugImages saveFlowDataForNextFrame flowAlgName alphaFeatherSize
    cams fs uw r w' :
  combineBottomImagesWithPoleRemoval imagesDir poleMaskDir prevFrameDataDir
    outputDataDir saveDebugImages saveFlowDataForNextFrame flowAlgName
    alphaFeatherSize cams (mkWorld fs uw []) = (r, w') ->
  (forall path, ~ In path (outputPaths outputDataDir) ->
                files w' !! path = fs !! path)
  /\ (saveDebugImages = false -> saveFlowDataForNextFrame = false ->
      files w' = fs).
Proof.
  intros H. unfold combineBottomImagesWithPoleRemoval in H.
  repeat xstep H.
  all: unfold throw, ret in H; injection H as <- <-.
  all: cbn [files].
  all: split; [|intros; first [reflexivity|discriminate]].
  all: intros path Hp; unfold outputPaths in Hp; cbn [In] in Hp.
  all: repeat (rewrite lookup_insert_ne
                 by (let E := fresh in intros E; apply Hp; tauto)).
  all: reflexivity.
Qed.

(** X9. Whatever the outcome of a call, it never reads a file after it has
    written one: the images, the masks and the previous frame's data are all
    read before the first write (so the previous-frame directory may be the
    output directory). *)
Theorem reads_precede_writes
    imagesDir poleMaskDir prevFrameDataDir outputDataDir
    saveDebugImages saveFlowDataForNextFrame flowAlgName alphaFeatherSize
    cams fs uw r w' :
  combineBottomImagesWithPoleRemoval imagesDir poleMaskDir prevFrameDataDir
    outputDataDir saveDebugImages saveFlowDataForNextFrame flowAlgName
    alphaFeatherSize cams (mkWorld fs uw []) = (r, w') ->
  precedesb isWrite isRead (trace w') = false.
Proof.
  intros H. unfold combineBottomImagesWithPoleRemoval in H.
  repeat xstep H.
  all: unfold throw, ret in H; injection H as <- <-.
  all: reflexivity.
Qed.

(** X10. Whatever the outcome of a call: nothing is written before the flow
    algorithm is invoked, it is invoked at most once, a flow that is saved
    for the next frame is a flow it returned, and a call that ends before
    invoking it leaves the file system as it was. *)
Theorem writes_follow_the_flow
    imagesDir poleMaskDir prevFrameDataDir outputDataDir
    saveDebugImages saveFlowDataForNextFrame flowAlgName alphaFeatherSize
    cams fs uw r w' :
  combineBottomImagesWithPoleRemoval imagesDir poleMaskDir prevFrameDataDir
    outputDataDir saveDebugImages saveFlowDataForNextFrame flowAlgName
    alphaFeatherSize cams (mkWorld fs uw []) = (r, w') ->
  noneBefore isComputeFlow isWrite (trace w') = true
  /\ (length (List.filter isComputeFlow (trace w')) <= 1)%nat
  /\ (forall flowResult,
        In (EvSaveFlow (outputDataDir +:+ "/flow/flow_bottom_secondary.bin")
                       flowResult) (trace w') ->
        exists alg I0 I1 prevFlow prevI0 prevI1,
          makeOpticalFlowByName flowAlgName = Ok alg /\
          @computeOpticalFlow alg I0 I1 prevFlow prevI0 prevI1 DOWN
            = Ok flowResult)
  /\ (existsb isComputeFlow (trace w') = false -> files w' = fs).
Proof.
  intros H. unfold combineBottomImagesWithPoleRemoval in H.
  repeat xstep H.
  all: unfold throw, ret in H; injection H as <- <-.
  all: cbn [trace files].
  all: split; [reflexivity|].
  all: split; [cbn; lia|].
  all: split;
    [ intros flowResult Hin; cbn [In] in Hin; in_cases Hin;
      injection Hin as <-; eexists _, _, _, _, _, _;
      (split; [first [eassumption|reflexivity]|eassumption])
    | intros Hno; first [reflexivity|discriminate Hno] ].
Qed.

End MoreProperties.

Section Persisted.
Context `{Ext : Externals}.



(** X12. With [saveDebugImages] set, a call that returns a result leaves
    under [outputDataDir]: in [bottomImage.png] and [bottomImage2.png] the
    two working images as they were given to the flow algorithm (the primary
    one before compositing changes it), and in [_bottomCombined.png] the
    image it returns. *)
Theorem debug_images_content
    imagesDir poleMaskDir prevFrameDataDir outputDataDir
    saveFlowDataForNextFrame flowAlgName alphaFeatherSize
    cams fs uw cam out w' :
  combineBottomImagesWithPoleRemoval imagesDir poleMaskDir prevFrameDataDir
    outputDataDir true saveFlowDataForNextFrame flowAlgName
    alphaFeatherSize cams (mkWorld fs uw []) = (Ok (cam, out), w') ->
  exists bi bi2 prevFlow prevI0 prevI1,
    In (EvComputeFlow bi bi2 prevFlow prevI0 prevI1 DOWN) (trace w') /\
    storedImage (files w') (outputDataDir +:+ "/bottomImage.png") = Some bi /\
    storedImage (files w') (outputDataDir +:+ "/bottomImage2.png") = Some bi2 /\
    storedImage (files w') (outputDataDir +:+ "/_bottomCombined.png")
      = Some out.
Proof.
  intros H. apply run_ok_files in H.
  destruct H as (bi & bi2 & pf & p0 & p1 & flow & alg & Hin & _ & _ & Hfs).
  cbv iota in Hfs.
  exists bi, bi2, pf, p0, p1. split; [exact Hin|].
  unfold storedImage. rewrite Hfs. unfold writeDebug.
  repeat split.
  - repeat (rewrite lookup_insert_ne by path_ne).
    rewrite lookup_insert_eq. reflexivity.
  - repeat (rewrite lookup_insert_ne by path_ne).
    rewrite lookup_insert_eq. reflexivity.
  - rewrite lookup_insert_eq. reflexivity.
Qed.

End Persisted.

(** ** The further properties on the concrete rig *)

Lemma blendLoop_idempotent_witness :
  Mat_at (blendLoop (blendLoop Rig.working0 Rig.working1) Rig.working1) 0 0
    = Some (Rig.px 4 5 6 255).
Proof.
  rewrite (blendLoop_idempotent Rig.working0 Rig.working1 0 0);
    [|simpl; lia|simpl; lia].
  vm_compute. reflexivity.
Defined.

Lemma blendLoop_fills_hole_witness :
  Mat_at Rig.working0 0 0 = Some (Rig.px 10 20 30 0) /\
  Mat_at Rig.working1 0 0 = Some (Rig.px 4 5 6 255) /\
  Mat_at (blendLoop Rig.working0 Rig.working1) 0 0 = Some (Rig.px 4 5 6 255).
Proof.
  split; [reflexivity|]. split; [reflexivity|].
  apply (blendLoop_fills_hole Rig.working0 Rig.working1 0 0
           (Rig.px 10 20 30 0) (Rig.px 4 5 6 255));
    [ simpl; lia | simpl; lia | reflexivity | reflexivity
    | unfold Vec4b_bytes, isByte; simpl; lia
    | unfold Vec4b_bytes, isByte; simpl; lia
    | reflexivity | simpl; lia ].
Defined.

Lemma blendLoop_nothing_to_fill_witness :
  blendLoop Rig.combined Rig.working1 = Rig.combined.
Proof.
  apply (blendLoop_nothing_to_fill Rig.combined Rig.working1);
    [reflexivity|].
  intros y x p q Hy Hx Hp Hq. left.
  destruct y as [|y]; [|simpl in Hy; lia].
  destruct x as [|[|x]]; [| |simpl in Hx; lia];
    vm_compute in Hp; injection Hp as <-; reflexivity.
Defined.

Lemma blendLoop_leaves_holes_only_where_secondary_is_empty_witness :
  Mat_at (blendLoop Rig.working0 Rig.masked1) 0 0 = Some (Rig.px 10 20 30 0) /\
  v3 (Rig.px 1 2 3 0) = 0 /\ Rig.px 10 20 30 0 = Rig.px 10 20 30 0.
Proof.
  assert (H : Mat_at (blendLoop Rig.working0 Rig.masked1) 0 0
              = Some (Rig.px 10 20 30 0)) by (vm_compute; reflexivity).
  split; [exact H|].
  apply (blendLoop_leaves_holes_only_where_secondary_is_empty
           Rig.working0 Rig.masked1 0 0
           (Rig.px 10 20 30 0) (Rig.px 1 2 3 0) (Rig.px 10 20 30 0));
    [ simpl; lia | simpl; lia | reflexivity | reflexivity
    | unfold isByte; simpl; lia | unfold isByte; simpl; lia
    | exact H | simpl; lia ].
Defined.

Lemma buildWarpMat_zero_flow_witness :
  Mat_at (buildWarpMat (2%nat, 1%nat) Rig.flow0) 0 1 =
    Some (mkPoint2f (F32.of_Z 1) (F32.of_Z 0)).
Proof.
  apply (buildWarpMat_zero_flow (2%nat, 1%nat) Rig.flow0 0 1);
    [simpl; lia | simpl; lia | reflexivity].
Defined.

Lemma output_has_primary_size_witness :
  Rig.frame false Rig.world = (Ok (Rig.cam0, Rig.combined), Rig.final) /\
  Mat_size Rig.combined = Mat_size Rig.raw0 /\ Mat_wf Rig.combined.
Proof.
  split; [vm_compute; reflexivity|].
  destruct (output_has_primary_size (Ext := Rig.externals false)
              "img" "mask" "NONE" "out" true true "zero" 0 Rig.cams
              Rig.disk ∅ Rig.cam0 Rig.combined Rig.final Rig.raw0)
    as (H1 & H2);
    [vm_compute; reflexivity | vm_compute; reflexivity |].
  split; [exact H1|]. apply H2. reflexivity.
Defined.

Lemma result_needs_equal_sizes_witness :
  Rig.frame false Rig.world = (Ok (Rig.cam0, Rig.combined), Rig.final) /\
  Mat_size Rig.raw0 = Mat_size Rig.raw1.
Proof.
  split; [vm_compute; reflexivity|].
  apply (result_needs_equal_sizes (Ext := Rig.externals false)
           "img" "mask" "NONE" "out" true true "zero" 0 Rig.cams
           Rig.disk ∅ Rig.cam0 Rig.cam1 Rig.combined Rig.final
           Rig.raw0 Rig.raw1);
    [ reflexivity | vm_compute; reflexivity | reflexivity
    | vm_compute; reflexivity | vm_compute; reflexivity ].
Defined.

Lemma only_output_paths_change_witness :
  storedImage (files Rig.final) "img/cam0.png" = Some Rig.raw0.
Proof.
  destruct (only_output_paths_change (Ext := Rig.externals false)
              "img" "mask" "NONE" "out" true true "zero" 0 Rig.cams
              Rig.disk ∅ (Ok (Rig.cam0, Rig.combined)) Rig.final)
    as (H & _);
    [vm_compute; reflexivity|].
  unfold storedImage. rewrite (H "img/cam0.png").
  - vm_compute. reflexivity.
  - vm_compute. intros [E|[E|[E|[E|[E|[E|[E|[]]]]]]]]; discriminate E.
Defined.

Lemma reads_precede_writes_witness :
  Rig.frame false Rig.world = (Ok (Rig.cam0, Rig.combined), Rig.final) /\
  precedesb isWrite isRead (trace Rig.final) = false.
Proof.
  split; [vm_compute; reflexivity|].
  apply (reads_precede_writes (Ext := Rig.externals false)
           "img" "mask" "NONE" "out" true true "zero" 0 Rig.cams
           Rig.disk ∅ (Ok (Rig.cam0, Rig.combined)) Rig.final).
  vm_compute. reflexivity.
Defined.

Lemma writes_follow_the_flow_witness :
  existsb isComputeFlow
    (trace (snd (Rig.frame false Rig.masklessWorld))) = false /\
  files (snd (Rig.frame false Rig.masklessWorld)) = Rig.masklessDisk.
Proof.
  assert (Hno : existsb isComputeFlow
                  (trace (snd (Rig.frame false Rig.masklessWorld))) = false)
    by (vm_compute; reflexivity).
  split; [exact Hno|].
  destruct (writes_follow_the_flow (Ext := Rig.externals false)
              "img" "mask" "NONE" "out" true true "zero" 0 Rig.cams
              Rig.masklessDisk ∅
              (fst (Rig.frame false Rig.masklessWorld))
              (snd (Rig.frame false Rig.masklessWorld)))
    as (_ & _ & _ & H);
    [vm_compute; reflexivity|].
  apply H. exact Hno.
Defined.


Lemma debug_images_content_witness :
  Rig.frame false Rig.world = (Ok (Rig.cam0, Rig.combined), Rig.final) /\
  storedImage (files Rig.final) ("out" +:+ "/_bottomCombined.png")
    = Some Rig.combined.
Proof.
  split; [vm_compute; reflexivity|].
  destruct (debug_images_content (Ext := Rig.externals false)
              "img" "mask" "NONE" "out" true "zero" 0 Rig.cams
              Rig.disk ∅ Rig.cam0 Rig.combined Rig.final)
    as (bi & bi2 & pf & p0 & p1 & _ & _ & _ & H);
    [vm_compute; reflexivity|exact H].
Defined.
